(** * Habit-Tracker: the analytics engine

    A shallow embedding of the analytics code of the repository:

    - [src/backend/server.js], handler [GET /habits/:id/analytics]:
      the ordered log query, the streak loop and the completion rate;
    - the React component [App] (the frontend source file): the derived
      values [weeklyData], [monthlyData] and [calendarCells].

    JavaScript numbers are IEEE-754 binary64 values.  Where the source
    divides and multiplies, the model rounds as binary64 does (module
    [JSNumber]); counters, indices and time values are integers far below
    [2^53] and are kept in [Z].  The platform's [Date] object (time zone,
    locale, string parser) is an interface, [DateAPI]; one concrete
    implementation, a fixed-offset proleptic Gregorian calendar, is given
    for the examples. *)

From Stdlib Require Import ZArith QArith Qround Qpower Qabs Lia Lra Psatz List Permutation Sorted.
From Stdlib Require Import SpecFloat.
From stdpp Require Import gmap strings list pretty.

Open Scope Z_scope.

(* ===================================================================== *)
(** ** JavaScript numbers *)
(* ===================================================================== *)

Module JSNumber.

(** A finite binary64 value is a rational of the form [m * 2^e] with
    [|m| < 2^53]; the model keeps the rational.  All operands that occur
    in the engine are integers below [2^53] in magnitude and the
    constant [100], so every quotient and product lies in the normal
    range: subnormals, overflow, NaN and the sign of zero do not arise
    and are not modelled. *)

Definition prec : Z := 53.

(** [ilog2 x] is the binary exponent of [x > 0]: [2^ilog2 x <= x < 2^(ilog2 x + 1)]. *)
Definition ilog2 (x : Q) : Z :=
  let c := Z.log2 (Qnum x) - Z.log2 (Zpos (Qden x)) in
  if Qle_bool (2 ^ c) x then c else c - 1.

(** Nearest integer, ties to the even one (the IEEE default rounding
    direction, applied to the scaled significand). *)
Definition rne (x : Q) : Z :=
  let f := Qfloor x in
  match ((x - inject_Z f) ?= (1 # 2))%Q with
  | Lt => f
  | Gt => f + 1
  | Eq => if Z.even f then f else f + 1
  end.

(** Rounding of a positive real to 53 significant bits. *)
Definition round64_pos (x : Q) : Q :=
  let e := ilog2 x - (prec - 1) in
  (inject_Z (rne (x / 2 ^ e)) * 2 ^ e)%Q.

Definition round64 (x : Q) : Q :=
  match Qnum x with
  | Z0 => 0%Q
  | Zpos _ => round64_pos x
  | Zneg _ => (- round64_pos (- x))%Q
  end.

(** The operators [/] and [*]: the exact result, rounded once. *)
Definition js_div (a b : Q) : Q := round64 (a / b).
Definition js_mul (a b : Q) : Q := round64 (a * b).

(** [Math.round]: [floor (x + 0.5)], so ties go towards [+oo].
    [Math.floor]: the floor. *)
Definition Math_round (x : Q) : Z := Qfloor (x + (1 # 2)).
Definition Math_floor (x : Q) : Z := Qfloor x.

(** The value of a finite float of the Standard Library's binary64
    specification, used to cross-check [round64]. *)
Definition SF2Q (f : spec_float) : option Q :=
  match f with
  | S754_zero _ => Some 0%Q
  | S754_finite s m e =>
      Some ((if s then - inject_Z (Zpos m) else inject_Z (Zpos m)) * 2 ^ e)%Q
  | _ => None
  end.

Definition SF_of_Z (n : Z) : spec_float :=
  binary_normalize 53 1024 n 0 false.

Definition same_value (a : Q) (f : spec_float) : bool :=
  match SF2Q f with
  | Some b => Qeq_bool a b
  | None => false
  end.

End JSNumber.

Import JSNumber.

(* ===================================================================== *)
(** ** The platform's Date object *)
(* ===================================================================== *)

(** A time value is the number of milliseconds since the epoch; an
    Invalid Date (time value NaN) is [None]. *)
Definition JSDate : Type := option Z.

Definition MS_PER_DAY : Z := 1000 * 60 * 60 * 24.

(** The methods of [Date] the engine calls.  Each field takes valid time
    values; the model code tests for NaN where the source does. *)
Class DateAPI := {
  (** [new Date(s).getTime()] for a string [s]. *)
  parseDate : string -> JSDate;
  (** [d.getDay()], 0 = Sunday, in local time. *)
  getDay : Z -> Z;
  (** [d.getDate()], the day of the month. *)
  getDate : Z -> Z;
  (** [d.getMonth()], 0 = January. *)
  getMonth : Z -> Z;
  getFullYear : Z -> Z;
  (** [d.setHours(0, 0, 0, 0)]: the new time value. *)
  setHours0 : Z -> Z;
  (** [d.setDate(k)]: the new time value. *)
  setDate : Z -> Z -> Z;
  (** [new Date(year, month, day)]. *)
  makeDate : Z -> Z -> Z -> Z;
  (** [d.toDateString()]. *)
  toDateString : Z -> string;
  (** [d.toISOString()] on a valid date; it is also the JSON form of a date. *)
  toISO : Z -> string;
  (** [d.toLocaleDateString(undefined, {day: '2-digit', month: '2-digit'})]. *)
  toLocaleDayMonth : Z -> string
}.

(** Exceptions.  [toISOString] is the one call of the engine that throws:
    a [RangeError] on an Invalid Date. *)
Inductive exn : Type :=
| RangeError_InvalidTimeValue.

Inductive result (A : Type) : Type :=
| Ok (a : A)
| Throw (e : exn).
Arguments Ok {A} a.
Arguments Throw {A} e.

#[global] Instance result_ret : MRet result := fun A a => Ok a.

#[global] Instance result_bind : MBind result := fun A B k m =>
  match m with
  | Ok a => k a
  | Throw e => Throw e
  end.

Definition toISOString `{DateAPI} (d : JSDate) : result string :=
  match d with
  | Some t => Ok (toISO t)
  | None => Throw RangeError_InvalidTimeValue
  end.

(** [a < b] and [a > b] on a valid date and a possibly invalid one:
    a comparison with NaN is false. *)
Definition date_ltb (a : Z) (b : JSDate) : bool :=
  match b with
  | Some tb => a <? tb
  | None => false
  end.

Definition date_gtb (a : Z) (b : JSDate) : bool :=
  match b with
  | Some tb => tb <? a
  | None => false
  end.

(* ===================================================================== *)
(** ** The server: GET /habits/:id/analytics *)
(* ===================================================================== *)

Module Server.

(** A row of the habit log table, as the handler reads it. *)
Record HabitLog := {
  log_id : Z;
  habitId : Z;
  date : Z;
  completed : bool
}.

Record Habit := {
  habit_id : Z;
  startDate : Z
}.

Record Stats := {
  currentStreak : Z;
  longestStreak : Z;
  totalCompletions : Z;
  completionRate : Z
}.

Inductive response : Type :=
| NotFound
| Json (logs : list HabitLog) (stats : Stats).

(** [orderBy: { date: 'asc' }]. *)
Fixpoint insert_by_date (r : HabitLog) (l : list HabitLog) : list HabitLog :=
  match l with
  | [] => [r]
  | r' :: l' =>
      if date r <=? date r' then r :: l else r' :: insert_by_date r l'
  end.

Definition sort_by_date (l : list HabitLog) : list HabitLog :=
  foldr insert_by_date [] l.

(** [prisma.habitLog.findMany({ where: { habitId, completed: true },
    orderBy: { date: 'asc' } })]. *)
Definition findMany (table : list HabitLog) (id : Z) : list HabitLog :=
  sort_by_date
    (List.filter (fun r => (habitId r =? id) && completed r) table).

Definition row0 : HabitLog :=
  {| log_id := 0; habitId := 0; date := 0; completed := false |}.

(** [Math.round((curr - prev) / (1000 * 60 * 60 * 24))]. *)
Definition diffInDays (prev curr : Z) : Z :=
  Math_round (js_div (inject_Z (curr - prev)) (inject_Z MS_PER_DAY)).

(** The two variables the loop updates. *)
Record Loop := { streak : Z; longest : Z }.

(** One iteration of the [for] loop.  The loop runs [i] from [1] to
    [logs.length - 1], so both reads are in range. *)
Definition streak_step (logs : list HabitLog) (st : Loop) (i : nat) : Loop :=
  let prev := date (nth (i - 1) logs row0) in
  let curr := date (nth i logs row0) in
  if diffInDays prev curr =? 1
  then {| streak := streak st + 1; longest := longest st |}
  else {| streak := 1;
          longest := if longest st <? streak st then streak st else longest st |}.

(** The streak block: [(currentStreak, longestStreak)]. *)
Definition streaks (logs : list HabitLog) : Z * Z :=
  if (0 <? length logs)%nat then
    let st :=
      fold_left (streak_step logs) (seq 1 (length logs - 1))
                {| streak := 1; longest := 0 |} in
    (streak st, Z.max (longest st) (streak st))
  else (0, 0).

(** [totalDays]: the arguments are the two [setHours(0,0,0,0)] values. *)
Definition totalDays (today0 start0 : Z) : Z :=
  let diffMs := today0 - start0 in
  if 0 <=? diffMs
  then Math_floor (js_div (inject_Z diffMs) (inject_Z MS_PER_DAY)) + 1
  else 0.

(** [totalDays > 0 ? Math.round((logs.length / totalDays) * 100) : 0]. *)
Definition completionRateOf (len days : Z) : Z :=
  if 0 <? days
  then Math_round (js_mul (js_div (inject_Z len) (inject_Z days)) 100)
  else 0.

Definition stats_of `{DateAPI} (logs : list HabitLog) (h : Habit) (now : Z) : Stats :=
  let '(cur, longest) := streaks logs in
  let days := totalDays (setHours0 now) (setHours0 (startDate h)) in
  {| currentStreak := cur;
     longestStreak := longest;
     totalCompletions := Z.of_nat (length logs);
     completionRate := completionRateOf (Z.of_nat (length logs)) days |}.

(** The handler: [habit] is the result of [findUnique]. *)
Definition analytics `{DateAPI}
    (habit : option Habit) (table : list HabitLog) (id : Z) (now : Z) : response :=
  match habit with
  | None => NotFound
  | Some h =>
      let logs := findMany table id in
      Json logs (stats_of logs h now)
  end.

End Server.

(* ===================================================================== *)
(** ** The streak loop as a recursion *)
(* ===================================================================== *)

(** Another form of the code, used in the proofs: the [for] loop of the
    handler written as a recursion over the time values of the logs, with
    the test of the code, [Server.diffInDays].  It is proved equal to the
    loop ([ServerFacts.streaks_refines]); nothing in it is taken from the
    specification. *)

Module Recursion.

Import Server.

Fixpoint walk_pairs (prev : Z) (rest : list Z) (running longest : Z) : Z * Z :=
  match rest with
  | [] => (running, Z.max longest running)
  | curr :: rest' =>
      if diffInDays prev curr =? 1
      then walk_pairs curr rest' (running + 1) longest
      else walk_pairs curr rest' 1 (Z.max longest running)
  end.

Definition streaks_rec (dates : list Z) : Z * Z :=
  match dates with
  | [] => (0, 0)
  | d :: rest => walk_pairs d rest 1 0
  end.

End Recursion.

(* ===================================================================== *)
(** ** The client: the derived values of the component [App] *)
(* ===================================================================== *)

Module Frontend.

(** [type Habit]: the engine reads [startDate] only. *)
Record Habit := {
  habit_id : Z;
  startDate : string
}.

(** [type HabitAnalytics]. *)
Record HabitAnalytics := {
  currentStreak : Z;
  longestStreak : Z;
  totalCompletions : Z;
  completionRate : Z
}.

Record Bar := { day : string; value : Z }.

Record Point := { label : string; pvalue : Z }.

Inductive Status : Type :=
| completed
| missed
| not_tracked
| empty.

Record Cell := { cell_label : string; status : Status }.

Definition weekdayLabels : list string :=
  ["Mon"; "Tue"; "Wed"; "Thu"; "Fri"; "Sat"; "Sun"]%string.

(** [counts[idx] += 1].  An index outside the array would leave its
    seven elements as they are. *)
Definition incr (counts : list Z) (idx : Z) : list Z :=
  if 0 <=? idx then alter (fun c => c + 1) (Z.to_nat idx) counts else counts.

(** The callback of [analyticsLogs.forEach]. *)
Definition count_log `{DateAPI} (counts : list Z) (dateStr : string) : list Z :=
  match parseDate dateStr with
  | None => counts
  | Some d =>
      let jsDay := getDay d in
      let idx := Z.rem (jsDay + 6) 7 in
      incr counts idx
  end.

Definition weekly_counts `{DateAPI} (analyticsLogs : list string) : list Z :=
  fold_left count_log analyticsLogs [0; 0; 0; 0; 0; 0; 0].

Definition weeklyData `{DateAPI}
    (analytics : option HabitAnalytics) (analyticsLogs : list string) : list Bar :=
  match analytics with
  | Some _ =>
      if (0 <? length analyticsLogs)%nat then
        let counts := weekly_counts analyticsLogs in
        imap (fun i day => {| day := day; value := nth i counts 0 |}) weekdayLabels
      else []
  | None => []
  end.

(** [.filter(Boolean)] on an array of strings and nulls: [null] and the
    empty string are dropped. *)
Definition filter_Boolean (l : list (option string)) : list string :=
  omap (fun o =>
          match o with
          | Some s => if String.eqb s EmptyString then None else Some s
          | None => None
          end) l.

Definition completedSet `{DateAPI} (analyticsLogs : list string) : gset string :=
  list_to_set
    (filter_Boolean
       (map (fun d =>
               match parseDate d with
               | None => None
               | Some date => Some (toDateString date)
               end) analyticsLogs)).

(** The body of the loop [for (let i = 29; i >= 0; i--)]. *)
Definition month_step `{DateAPI}
    (today : Z) (set : gset string) (data : list Point) (i : Z) : list Point :=
  let d := setDate today (getDate today - i) in
  data ++ [{| label := toLocaleDayMonth d;
              pvalue := if bool_decide (toDateString d ∈ set) then 1 else 0 |}].

(** The values [hi, hi - 1, ..., 0] of a counter that runs down. *)
Definition down_from (hi : Z) : list Z :=
  reverse (seqZ 0 (hi + 1)).

Definition monthlyData `{DateAPI}
    (analytics : option HabitAnalytics) (analyticsLogs : list string)
    (now : Z) : list Point :=
  match analytics with
  | Some _ =>
      if (0 <? length analyticsLogs)%nat then
        let today := setHours0 now in
        let set := completedSet analyticsLogs in
        fold_left (month_step today set) (down_from 29) []
      else []
  | None => []
  end.

(** The key of one log in [completionSet]. *)
Definition completion_key `{DateAPI} (d : string) : result string :=
  let dt := parseDate d in
  match dt with
  | None => Ok EmptyString
  | Some _ => s ← toISOString dt; Ok (String.substring 0 10 s)
  end.

Definition day_status (notTracked has : bool) : Status :=
  if notTracked then not_tracked
  else if has then completed
  else missed.

(** The body of the loop [for (let day = 1; day <= daysInMonth; day++)]. *)
Definition day_step `{DateAPI}
    (year month today : Z) (habitStart : JSDate) (set : gset string)
    (cells : list Cell) (day : Z) : result (list Cell) :=
  let d := setHours0 (makeDate year month day) in
  s ← toISOString (Some d);
  let key := String.substring 0 10 s in
  let st := day_status (date_ltb d habitStart || date_gtb d (Some today))
                       (bool_decide (key ∈ set)) in
  Ok (cells ++ [{| cell_label := pretty day; status := st |}]).

Fixpoint foldM {A B} (f : A -> B -> result A) (a : A) (l : list B) : result A :=
  match l with
  | [] => Ok a
  | b :: l' => a' ← f a b; foldM f a' l'
  end.

(** The values [lo, lo + 1, ..., hi] of a counter that runs up. *)
Definition up_to (lo hi : Z) : list Z :=
  seqZ lo (hi - lo + 1).

Definition calendarCells `{DateAPI}
    (analytics : option HabitAnalytics) (selectedHabit : option Habit)
    (analyticsLogs : list string) (now : Z) : result (list Cell) :=
  match analytics, selectedHabit with
  | Some _, Some h =>
      let today := setHours0 now in
      let month := getMonth today in
      let year := getFullYear today in
      let firstOfMonth := makeDate year month 1 in
      let startWeekday := getDay firstOfMonth in
      let daysInMonth := getDate (makeDate year (month + 1) 0) in
      keys ← mapM completion_key analyticsLogs;
      let completionSet : gset string := list_to_set keys in
      let habitStart := setHours0 <$> parseDate (startDate h) in
      let offset := Z.rem (startWeekday + 6) 7 in
      let cells :=
        fold_left (fun cells _ => cells ++ [{| cell_label := EmptyString; status := empty |}])
                  (up_to 0 (offset - 1)) [] in
      foldM (day_step year month today habitStart completionSet)
            cells (up_to 1 daysInMonth)
  | _, _ => Ok []
  end.

End Frontend.

(* ===================================================================== *)
(** ** The engine: server response, [loadAnalytics], derived values *)
(* ===================================================================== *)

Module Engine.

Record AnalyticsResult := {
  stats : option Frontend.HabitAnalytics;
  weeklyBuckets : list Frontend.Bar;
  trailingWindow : list Frontend.Point;
  calendar : list Frontend.Cell
}.

(** [loadAnalytics]: the state after the fetch.  A response that is not
    ok leaves [analytics] null and [analyticsLogs] empty. *)
Definition loadAnalytics `{DateAPI}
    (resp : Server.response) : option Frontend.HabitAnalytics * list string :=
  match resp with
  | Server.Json logs st =>
      (Some {| Frontend.currentStreak := Server.currentStreak st;
               Frontend.longestStreak := Server.longestStreak st;
               Frontend.totalCompletions := Server.totalCompletions st;
               Frontend.completionRate := Server.completionRate st |},
       map (fun log => toISO (Server.date log)) logs)
  | Server.NotFound => (None, [])
  end.

(** The derived values of the component for a given state. *)
Definition derive `{DateAPI}
    (analytics : option Frontend.HabitAnalytics)
    (selectedHabit : option Frontend.Habit)
    (analyticsLogs : list string) (now : Z) : result AnalyticsResult :=
  cells ← Frontend.calendarCells analytics selectedHabit analyticsLogs now;
  Ok {| stats := analytics;
        weeklyBuckets := Frontend.weeklyData analytics analyticsLogs;
        trailingWindow := Frontend.monthlyData analytics analyticsLogs now;
        calendar := cells |}.

(** The whole computation for one habit: [S] is the platform of the
    server, [C] the platform of the client. *)
Definition computeAnalytics (S C : DateAPI)
    (habit : Server.Habit) (table : list Server.HabitLog) (now : Z)
    : result AnalyticsResult :=
  let resp := @Server.analytics S (Some habit) table (Server.habit_id habit) now in
  let '(analytics, analyticsLogs) := @loadAnalytics C resp in
  let selected :=
    {| Frontend.habit_id := Server.habit_id habit;
       Frontend.startDate := @toISO C (Server.startDate habit) |} in
  @derive C analytics (Some selected) analyticsLogs now.

End Engine.

(* ===================================================================== *)
(** ** A concrete platform: fixed offset from UTC, Gregorian calendar *)
(* ===================================================================== *)

Module Platform.

(** Days since 1970-01-01 of the civil date [y]-[m]-[d], [m] in 1..12;
    [d] may lie outside the month and then counts on linearly. *)
Definition days_from_civil (y m d : Z) : Z :=
  let y' := if m <=? 2 then y - 1 else y in
  let era := y' / 400 in
  let yoe := y' - era * 400 in
  let mp := (m + 9) mod 12 in
  let doy := (153 * mp + 2) / 5 + d - 1 in
  let doe := yoe * 365 + yoe / 4 - yoe / 100 + doy in
  era * 146097 + doe - 719468.

Definition civil_from_days (z : Z) : Z * Z * Z :=
  let z' := z + 719468 in
  let era := z' / 146097 in
  let doe := z' - era * 146097 in
  let yoe := (doe - doe / 1460 + doe / 36524 - doe / 146096) / 365 in
  let doy := doe - (365 * yoe + yoe / 4 - yoe / 100) in
  let mp := (5 * doy + 2) / 153 in
  let d := doy - (153 * mp + 2) / 5 + 1 in
  let m := if mp <? 10 then mp + 3 else mp - 9 in
  let y := yoe + era * 400 in
  (if m <=? 2 then y + 1 else y, m, d).

Definition pad (width : nat) (n : Z) : string :=
  let s := pretty n in
  String.concat EmptyString (repeat "0"%string (width - String.length s)) +:+ s.

Definition weekdayNames : list string :=
  ["Sun"; "Mon"; "Tue"; "Wed"; "Thu"; "Fri"; "Sat"]%string.

Definition monthNames : list string :=
  ["Jan"; "Feb"; "Mar"; "Apr"; "May"; "Jun";
   "Jul"; "Aug"; "Sep"; "Oct"; "Nov"; "Dec"]%string.

Definition digit_of (a : Ascii.ascii) : option Z :=
  let n := Z.of_N (Ascii.N_of_ascii a) in
  if (48 <=? n) && (n <=? 57) then Some (n - 48) else None.

Fixpoint read_digits (acc : Z) (s : string) : option Z :=
  match s with
  | EmptyString => Some acc
  | String a s' =>
      match digit_of a with
      | Some k => read_digits (10 * acc + k) s'
      | None => None
      end
  end.

Definition field (s : string) (from len : nat) : option Z :=
  read_digits 0 (String.substring from len s).

Definition sep (s : string) (at_ : nat) (c : string) : bool :=
  String.eqb (String.substring at_ 1 s) c.

(** The date part [YYYY-MM-DD] of an ISO string, as UTC days. *)
Definition parse_ymd (s : string) : option Z :=
  match field s 0 4, field s 5 2, field s 8 2 with
  | Some y, Some m, Some d =>
      if sep s 4 "-" && sep s 7 "-"
         && (1 <=? m) && (m <=? 12) && (1 <=? d) && (d <=? 31)
      then Some (days_from_civil y m d)
      else None
  | _, _, _ => None
  end.

(** The time part [THH:MM:SS.mmmZ], as milliseconds. *)
Definition parse_hms (s : string) : option Z :=
  match field s 11 2, field s 14 2, field s 17 2, field s 20 3 with
  | Some h, Some mi, Some sec, Some ms =>
      if sep s 10 "T" && sep s 13 ":" && sep s 16 ":" && sep s 19 "."
         && sep s 23 "Z" && (h <? 24) && (mi <? 60) && (sec <? 60)
      then Some (((h * 60 + mi) * 60 + sec) * 1000 + ms)
      else None
  | _, _, _, _ => None
  end.

(** The two ISO forms the application exchanges: a date alone (UTC
    midnight) and the full form written by [toISOString]. *)
Definition parse_iso (s : string) : JSDate :=
  if (String.length s =? 10)%nat then
    days ← parse_ymd s; Some (days * MS_PER_DAY)
  else if (String.length s =? 24)%nat then
    days ← parse_ymd s; ms ← parse_hms s; Some (days * MS_PER_DAY + ms)
  else None.

Definition iso_date (days : Z) : string :=
  let '(y, m, d) := civil_from_days days in
  pad 4 y +:+ "-" +:+ pad 2 m +:+ "-" +:+ pad 2 d.

Definition iso_string (t : Z) : string :=
  let ms := t mod MS_PER_DAY in
  iso_date (t / MS_PER_DAY) +:+ "T"
    +:+ pad 2 (ms / 3600000) +:+ ":"
    +:+ pad 2 (ms / 60000 mod 60) +:+ ":"
    +:+ pad 2 (ms / 1000 mod 60) +:+ "."
    +:+ pad 3 (ms mod 1000) +:+ "Z".

Section FixedOffset.

(** Local time minus UTC, in milliseconds. *)
Variable off : Z.

Definition localDay (t : Z) : Z := (t + off) / MS_PER_DAY.

Definition weekday (t : Z) : Z := (localDay t + 4) mod 7.

Definition dayOfMonth (t : Z) : Z := snd (civil_from_days (localDay t)).

Definition monthIndex (t : Z) : Z := snd (fst (civil_from_days (localDay t))) - 1.

Definition fullYear (t : Z) : Z := fst (fst (civil_from_days (localDay t))).

Definition startOfDay (t : Z) : Z := localDay t * MS_PER_DAY - off.

Definition withDayOfMonth (t k : Z) : Z := t + (k - dayOfMonth t) * MS_PER_DAY.

Definition localDate (year month day : Z) : Z :=
  days_from_civil (year + month / 12) (month mod 12 + 1) day * MS_PER_DAY - off.

Definition dateString (t : Z) : string :=
  let '(y, m, d) := civil_from_days (localDay t) in
  nth (Z.to_nat (weekday t)) weekdayNames EmptyString +:+ " "
    +:+ nth (Z.to_nat (m - 1)) monthNames EmptyString +:+ " "
    +:+ pad 2 d +:+ " " +:+ pad 4 y.

Definition dayMonth (t : Z) : string :=
  let '(_, m, d) := civil_from_days (localDay t) in
  pad 2 d +:+ "/" +:+ pad 2 m.

Definition fixed_offset : DateAPI := {|
  parseDate := parse_iso;
  getDay := weekday;
  getDate := dayOfMonth;
  getMonth := monthIndex;
  getFullYear := fullYear;
  setHours0 := startOfDay;
  setDate := withDayOfMonth;
  makeDate := localDate;
  toDateString := dateString;
  toISO := iso_string;
  toLocaleDayMonth := dayMonth
|}.

End FixedOffset.

Definition UTC : DateAPI := fixed_offset 0.

(** India Standard Time, UTC+05:30. *)
Definition IST : DateAPI := fixed_offset 19800000.

(** Eastern Standard Time, UTC-05:00. *)
Definition EST : DateAPI := fixed_offset (-18000000).

End Platform.

(* ===================================================================== *)
(** ** The specification's words *)
(* ===================================================================== *)

(** Definitions that follow the text of the specification, to be compared
    with the code above, and the vocabulary of the statements below. *)

Module Spec.

Import Server.

(** *** Streaks *)

(** The streak calculator of the specification works on date-only
    values: a completion date is a calendar day, here the number of the
    day since the epoch.  The whole-day difference of a pair is the
    number of days from the one to the other. *)
Definition day_difference (prev curr : Z) : Z := curr - prev.

(** The walk over adjacent pairs: a difference of exactly 1 extends the
    run; any other difference folds the run into the longest streak and
    resets the counter to 1; the final run is folded in at the end. *)
Fixpoint walk_days (prev : Z) (rest : list Z) (running longest : Z) : Z * Z :=
  match rest with
  | [] => (running, Z.max longest running)
  | curr :: rest' =>
      if day_difference prev curr =? 1
      then walk_days curr rest' (running + 1) longest
      else walk_days curr rest' 1 (Z.max longest running)
  end.

(** [(currentStreak, longestStreak)] of a sequence of calendar days. *)
Definition streak_calculator (days : list Z) : Z * Z :=
  match days with
  | [] => (0, 0)
  | d :: rest => walk_days d rest 1 0
  end.

(** Date-only values: whole days since the epoch, as time values.  The
    range of a [Date] is 100,000,000 days either side of the epoch. *)
Definition valid_day (d : Z) : Prop := -100000000 <= d <= 100000000.

Definition whole_days (days : list Z) : list Z :=
  map (fun d => d * MS_PER_DAY) days.

(** A completed log of habit 1 on day [d]. *)
Definition on_day (d : Z) : HabitLog :=
  {| log_id := d; habitId := 1; date := d * MS_PER_DAY; completed := true |}.

(** [k] is the length of the maximal run of consecutive calendar days
    that ends at [last]: the [k] days up to [last] are all completed and
    the day before them is not. *)
Definition maximal_run_ending_at (days : list Z) (last k : Z) : Prop :=
  1 <= k /\ (forall j, 0 <= j < k -> In (last - j) days) /\ ~ In (last - k) days.

(** *** Completion rate *)

(** Nearest whole number, ties away from zero. *)
Definition round_half_away (x : Q) : Z :=
  if Qle_bool 0 x then Qfloor (x + (1 # 2)) else Qceiling (x - (1 # 2)).

Definition eligibleDays (today0 start0 : Z) : Z :=
  Z.max 0 ((today0 - start0) / MS_PER_DAY + 1).

Definition completionRate_spec (total days : Z) : Z :=
  if 0 <? days
  then round_half_away (inject_Z (100 * total) / inject_Z days)
  else 0.

(** The relative error of one rounding to 53 bits. *)
Definition eps : Q := 2 ^ (- prec).

(** The percentage as the reference binary64 arithmetic of the
    Standard Library computes it, and as the model does. *)
Definition sf_percent (t e : Z) : spec_float :=
  SFmul 53 1024 (SFdiv 53 1024 (SF_of_Z t) (SF_of_Z e)) (SF_of_Z 100).

Definition js_percent (t e : Z) : Q :=
  js_mul (js_div (inject_Z t) (inject_Z e)) 100.

Definition percent_grid (n : Z) : bool :=
  forallb (fun e =>
             forallb (fun t => same_value (js_percent t e) (sf_percent t e))
                     (seqZ 0 (n + 1)))
          (seqZ 1 n).

Definition sf_days (n : Z) : spec_float :=
  SFdiv 53 1024 (SF_of_Z n) (SF_of_Z MS_PER_DAY).

(** The completion rate a response reports. *)
Definition rate_of (resp : response) : Z :=
  match resp with
  | Json _ st => completionRate st
  | NotFound => 0
  end.

(** *** The ordered query *)

Definition by_date (a b : HabitLog) : Prop := date a <= date b.

(** The rows of one habit that the query selects, in storage order. *)
Definition completed_logs (table : list HabitLog) (id : Z) : list HabitLog :=
  List.filter (fun r => (habitId r =? id) && completed r) table.

Section Client.

Import Frontend.
Context `{DateAPI}.

(** *** The weekday histogram *)

(** The log parses and falls on the weekday with Monday-first index [i]. *)
Definition on_weekday (i : Z) (dateStr : string) : bool :=
  match parseDate dateStr with
  | Some d => Z.rem (getDay d + 6) 7 =? i
  | None => false
  end.

Definition weekday_count (analyticsLogs : list string) (i : Z) : Z :=
  Z.of_nat (length (List.filter (on_weekday i) analyticsLogs)).

Definition tally (i : Z) (dateStr : string) : Z :=
  if on_weekday i dateStr then 1 else 0.

(** The log can be normalized to a date. *)
Definition parses (dateStr : string) : bool :=
  match parseDate dateStr with
  | Some _ => true
  | None => false
  end.

(** *** The trailing series *)

(** [today] minus [i] days, as the loop computes it. *)
Definition trailing_day (today : Z) (i : Z) : Z :=
  setDate today (getDate today - i).

(** A log completes the calendar day of [d]: it parses and has the
    date string of [d]. *)
Definition completed_on (analyticsLogs : list string) (d : Z) : Prop :=
  exists s t, In s analyticsLogs /\ parseDate s = Some t
              /\ toDateString t = toDateString d
              /\ toDateString t <> EmptyString.

Definition month_point (today : Z) (set : gset string) (i : Z) : Point :=
  let d := trailing_day today i in
  {| label := toLocaleDayMonth d;
     pvalue := if bool_decide (toDateString d ∈ set) then 1 else 0 |}.

(** *** The calendar grid of the code, in closed form *)

(** The key the code gives a log in its completion set: the first ten
    characters of its ISO form, the empty string when it does not
    parse.  [day_cell] is the cell the loop pushes for a day. *)
Definition iso_key (s : string) : string :=
  match parseDate s with
  | Some t => String.substring 0 10 (toISO t)
  | None => EmptyString
  end.

Definition day_cell (year month today : Z) (habitStart : JSDate)
    (set : gset string) (day : Z) : Cell :=
  let d := setHours0 (makeDate year month day) in
  {| cell_label := pretty day;
     status := day_status (date_ltb d habitStart || date_gtb d (Some today))
                 (bool_decide (String.substring 0 10 (toISO d) ∈ set)) |}.

Definition empty_cell : Cell := {| cell_label := EmptyString; status := empty |}.

End Client.

(** *** The calendar grid of the specification *)

(** The specification states the grid on date-only values in one calendar:
    a day of the month, the start date of the habit, today and the
    completion dates are calendar days, here numbers of days since the
    epoch.  The status of day [d], in the order of precedence. *)
Definition grid_status (startDate today : Z) (completionSet : list Z) (d : Z)
    : Frontend.Status :=
  if (d <? startDate) || (today <? d) then Frontend.not_tracked
  else if bool_decide (d ∈ completionSet) then Frontend.completed
  else Frontend.missed.

(** [offset] leading cells of status [empty], then one cell per day of
    the month, from [firstDay] on. *)
Definition calendar_grid (offset firstDay daysInMonth startDate today : Z)
    (completionSet : list Z) : list Frontend.Status :=
  replicate (Z.to_nat offset) Frontend.empty
  ++ map (grid_status startDate today completionSet) (seqZ firstDay daysInMonth).

(** The calendar date of a stored date is the date written in its ISO
    form: a date enters the system as [YYYY-MM-DD] and is stored as the
    midnight of that date in UTC. *)
Definition calendar_date (s : string) : option Z := Platform.parse_ymd s.

(** The grid of the specification for a client [off] milliseconds east of
    UTC: today is the calendar day of the client, the month is the month
    of today, and the completion set holds the calendar dates of the
    logs.  Day 0 of the epoch is a Thursday, so the Monday-first weekday
    of day [n] is [(n + 3) mod 7]. *)
Definition spec_grid (off : Z) (startDate : string) (logs : list string) (now : Z)
    : option (list Frontend.Status) :=
  match calendar_date startDate with
  | Some start =>
      let today := Platform.localDay off now in
      let '(y, m, _) := Platform.civil_from_days today in
      let first := Platform.days_from_civil y m 1 in
      let next := if m =? 12 then Platform.days_from_civil (y + 1) 1 1
                  else Platform.days_from_civil y (m + 1) 1 in
      Some (calendar_grid ((first + 3) mod 7) first (next - first) start today
              (omap calendar_date logs))
  | None => None
  end.

(** *** Sample data *)

Definition sample_analytics : Frontend.HabitAnalytics :=
  {| Frontend.currentStreak := 1; Frontend.longestStreak := 1;
     Frontend.totalCompletions := 1; Frontend.completionRate := 3 |}.

Definition sample_habit : Frontend.Habit :=
  {| Frontend.habit_id := 1; Frontend.startDate := "2024-02-03" |}.

(** One completion on Monday 5 February 2024 and one entry that is not
    a date. *)
Definition sample_logs : list string :=
  ["2024-02-05T00:00:00.000Z"; "not-a-date"]%string.

(** Thursday 15 February 2024, 00:00:00.123 UTC. *)
Definition sample_now : Z := 1707955200123.

(** Habit 1 started on 1 January 2024 (day 19723); 23 completions on
    the days that follow; the request arrives at noon of 9 February,
    the 40th eligible day. *)
Definition rate_habit : Habit :=
  {| habit_id := 1; startDate := 19723 * MS_PER_DAY |}.

Definition rate_logs : list HabitLog := map on_day (seqZ 19723 23).

Definition rate_now : Z := 19762 * MS_PER_DAY + 12 * 3600000.

End Spec.

(* ===================================================================== *)
(** ** Strings of requests *)
(* ===================================================================== *)

Module Text.

(** A field of a request body that is a string when it is there.  [!x]
    holds for a missing field and for the empty string; [present] keeps
    the other values. *)
Definition present (x : option string) : option string :=
  match x with
  | Some s => if String.eqb s EmptyString then None else Some s
  | None => None
  end.

(** [s.startsWith(p)]. *)
Definition startsWith (s p : string) : bool := String.prefix p s.

(** [s.split(' ')]: the pieces between the separators, empty pieces
    included; never the empty array. *)
Fixpoint split (sep : Ascii.ascii) (s : string) : list string :=
  match s with
  | EmptyString => [EmptyString]
  | String a s' =>
      if Ascii.eqb a sep then EmptyString :: split sep s'
      else match split sep s' with
           | w :: ws => String a w :: ws
           | [] => [String a EmptyString]
           end
  end.

Definition space : Ascii.ascii := Ascii.Ascii false false false false false true false false.

(** The string has no space. *)
Fixpoint spaceless (s : string) : bool :=
  match s with
  | EmptyString => true
  | String a s' => negb (Ascii.eqb a space) && spaceless s'
  end.

End Text.

(* ===================================================================== *)
(** ** The server: accounts, habits and logs *)
(* ===================================================================== *)

(** The handlers of [src/backend/server.js] other than the analytics.
    The tables are lists of rows in storage order.  A call of the store
    does what its documentation says: [findUnique] returns the row with
    the key or null, [create] appends a row, [update] changes the row with
    the id and throws when there is none, [upsert] updates the row with
    the compound key or creates it; a [Date] that is invalid is refused.
    Every handler catches what the store throws and answers 500.  Columns
    the store fills in ([id], [createdAt]) are arguments; failures of the
    database itself are outside the model. *)

Module Api.

(** [res.status(n).json(body)], and the same with a body [{ message }]. *)
Inductive reply (A : Type) : Type :=
| Json (status : Z) (body : A)
| Message (status : Z) (message : string).
Arguments Json {A} status body.
Arguments Message {A} status message.

Record User := {
  user_id : Z;
  email : string;
  password : string;
  name : option string
}.

(** The payload of a token: [{ id, email }]. *)
Record Claims := { claim_id : Z; claim_email : string }.

(** The part of a user a response shows: [{ id, email, name }]. *)
Record PublicUser := { pub_id : Z; pub_email : string; pub_name : option string }.

Record AuthResponse := { auth_user : PublicUser; auth_token : string }.

(** The libraries [bcrypt] and [jsonwebtoken], with the secret and the
    clock fixed: [bcrypt.hash] with the salt it draws, [bcrypt.compare],
    [jwt.sign] and [jwt.verify] ([None] when it throws). *)
Class Crypto := {
  bcrypt_hash : string -> string -> string;
  bcrypt_compare : string -> string -> bool;
  jwt_sign : Claims -> string;
  jwt_verify : string -> option Claims
}.

Definition generateToken `{Crypto} (user : User) : string :=
  jwt_sign {| claim_id := user_id user; claim_email := email user |}.

(** The outcome of the middleware: [next()] with [req.user], or a reply. *)
Inductive auth : Type :=
| Next (user : Claims)
| Reject (status : Z) (message : string).

Definition authMiddleware `{Crypto} (authorization : option string) : auth :=
  match Text.present authorization with
  | None => Reject 401 "No token provided"
  | Some authHeader =>
      if negb (Text.startsWith authHeader "Bearer ")
      then Reject 401 "No token provided"
      else
        match Text.split Text.space authHeader !! 1%nat with
        | None => Reject 401 "Invalid or expired token"
        | Some token =>
            match jwt_verify token with
            | Some decoded => Next decoded
            | None => Reject 401 "Invalid or expired token"
            end
        end
  end.

Definition public (user : User) : PublicUser :=
  {| pub_id := user_id user; pub_email := email user; pub_name := name user |}.

(** [prisma.user.findUnique({ where: { email } })]. *)
Definition findUser (users : list User) (e : string) : option User :=
  List.find (fun u => String.eqb (email u) e) users.

(** [POST /auth/register]: the new table and the reply.  [fresh] is the
    id the store gives the row, [salt] the salt [bcrypt] draws. *)
Definition register `{Crypto} (users : list User) (fresh : Z) (salt : string)
    (email password name : option string) : list User * reply AuthResponse :=
  match Text.present email, Text.present password with
  | Some e, Some p =>
      match findUser users e with
      | Some _ => (users, Message 409 "Email already in use")
      | None =>
          let hashed := bcrypt_hash salt p in
          let user := {| user_id := fresh; Api.email := e; Api.password := hashed;
                         Api.name := Text.present name |} in
          (users ++ [user],
           Json 201 {| auth_user := public user; auth_token := generateToken user |})
      end
  | _, _ => (users, Message 400 "Email and password are required")
  end.

(** [POST /auth/login]. *)
Definition login `{Crypto} (users : list User)
    (email password : option string) : reply AuthResponse :=
  match Text.present email, Text.present password with
  | Some e, Some p =>
      match findUser users e with
      | None => Message 401 "Invalid credentials"
      | Some user =>
          if bcrypt_compare p (Api.password user)
          then Json 200 {| auth_user := public user; auth_token := generateToken user |}
          else Message 401 "Invalid credentials"
      end
  | _, _ => Message 400 "Email and password are required"
  end.

(** A row of the habit table. *)
Record HabitRow := {
  id : Z;
  title : string;
  description : option string;
  frequency : string;
  startDate : Z;
  category : option string;
  userId : Z;
  archived : bool;
  createdAt : Z
}.

(** The body of [POST /habits] and of [PATCH /habits/:id]; a field that
    the body lacks is [None]. *)
Record HabitBody := {
  b_title : option string;
  b_description : option string;
  b_frequency : option string;
  b_startDate : option string;
  b_category : option string;
  b_archived : option bool
}.

(** [POST /habits].  A new row is not archived: the list query selects
    [archived: false] and only DELETE sets the flag. *)
Definition createHabit `{DateAPI} (habits : list HabitRow) (user : Claims)
    (fresh now : Z) (body : HabitBody) : list HabitRow * reply HabitRow :=
  match Text.present (b_title body), Text.present (b_frequency body),
        Text.present (b_startDate body) with
  | Some t, Some f, Some s =>
      match parseDate s with
      | None => (habits, Message 500 "Server error")
      | Some parsedStartDate =>
          let habit := {| id := fresh; title := t;
                          description := Text.present (b_description body);
                          frequency := f; startDate := parsedStartDate;
                          category := Text.present (b_category body);
                          userId := claim_id user; archived := false;
                          createdAt := now |} in
          (habits ++ [habit], Json 201 habit)
      end
  | _, _, _ => (habits, Message 400 "Title, frequency and start date are required")
  end.

(** [orderBy: { createdAt: 'asc' }]. *)
Fixpoint insert_by_createdAt (h : HabitRow) (l : list HabitRow) : list HabitRow :=
  match l with
  | [] => [h]
  | h' :: l' =>
      if createdAt h <=? createdAt h' then h :: l else h' :: insert_by_createdAt h l'
  end.

(** [GET /habits]. *)
Definition listHabits (habits : list HabitRow) (user : Claims) : reply (list HabitRow) :=
  Json 200
    (foldr insert_by_createdAt []
       (List.filter (fun h => (userId h =? claim_id user) && negb (archived h)) habits)).

(** [prisma.habit.update({ where: { id }, data })]: the row after the
    update, when there is a row with the id. *)
Definition updateRow (habits : list HabitRow) (habitId : Z)
    (f : HabitRow -> HabitRow) : option (list HabitRow * HabitRow) :=
  match List.find (fun h => id h =? habitId) habits with
  | Some h => Some (map (fun x => if id x =? habitId then f x else x) habits, f h)
  | None => None
  end.

(** The [data] of PATCH: a field that is [undefined] is left as it is;
    the start date is written when the body has one. *)
Definition patch (body : HabitBody) (parsed : option Z) (h : HabitRow) : HabitRow :=
  {| id := id h;
     title := default (title h) (b_title body);
     description := match b_description body with
                    | Some d => Some d
                    | None => description h
                    end;
     frequency := default (frequency h) (b_frequency body);
     startDate := default (startDate h) parsed;
     category := match b_category body with
                 | Some c => Some c
                 | None => category h
                 end;
     userId := userId h;
     archived := default (archived h) (b_archived body);
     createdAt := createdAt h |}.

(** [PATCH /habits/:id]. *)
Definition updateHabit `{DateAPI} (habits : list HabitRow) (user : Claims)
    (habitId : Z) (body : HabitBody) : list HabitRow * reply HabitRow :=
  let written :=
    match Text.present (b_startDate body) with
    | Some s => match parseDate s with
                | Some d => Some (Some d)
                | None => None
                end
    | None => Some None
    end in
  match written with
  | None => (habits, Message 500 "Server error")
  | Some parsed =>
      match updateRow habits habitId (patch body parsed) with
      | Some (habits', habit) => (habits', Json 200 habit)
      | None => (habits, Message 500 "Server error")
      end
  end.

Definition archive (h : HabitRow) : HabitRow :=
  {| id := id h; title := title h; description := description h;
     frequency := frequency h; startDate := startDate h; category := category h;
     userId := userId h; archived := true; createdAt := createdAt h |}.

(** [DELETE /habits/:id]. *)
Definition deleteHabit (habits : list HabitRow) (user : Claims)
    (habitId : Z) : list HabitRow * reply HabitRow :=
  match updateRow habits habitId archive with
  | Some (habits', habit) => (habits', Json 200 habit)
  | None => (habits, Message 500 "Server error")
  end.

(** The compound key [habitId_date] of the log table. *)
Definition same_key (habitId date : Z) (r : Server.HabitLog) : bool :=
  (Server.habitId r =? habitId) && (Server.date r =? date).

Definition complete (r : Server.HabitLog) : Server.HabitLog :=
  {| Server.log_id := Server.log_id r; Server.habitId := Server.habitId r;
     Server.date := Server.date r; Server.completed := true |}.

(** [prisma.habitLog.upsert({ where: { habitId_date }, update:
    { completed: true }, create: { habitId, date, completed: true } })]. *)
Definition upsert (table : list Server.HabitLog) (fresh habitId date : Z)
    : list Server.HabitLog * Server.HabitLog :=
  match List.find (same_key habitId date) table with
  | Some r =>
      (map (fun x => if same_key habitId date x then complete x else x) table,
       complete r)
  | None =>
      let r := {| Server.log_id := fresh; Server.habitId := habitId;
                  Server.date := date; Server.completed := true |} in
      (table ++ [r], r)
  end.

(** [POST /habits/:id/logs]. *)
Definition postLog `{DateAPI} (table : list Server.HabitLog) (user : Claims)
    (fresh habitId : Z) (date : option string)
    : list Server.HabitLog * reply Server.HabitLog :=
  match Text.present date with
  | None => (table, Message 400 "Date is required")
  | Some s =>
      match parseDate s with
      | None => (table, Message 500 "Server error")
      | Some logDate =>
          let '(table', log) := upsert table fresh habitId logDate in
          (table', Json 201 log)
      end
  end.

(** [GET /habits/:id/analytics], from the two tables: [findUnique] on the
    habits, then the handler modelled in [Server]. *)
Definition getAnalytics `{DateAPI} (habits : list HabitRow)
    (table : list Server.HabitLog) (user : Claims) (habitId now : Z)
    : Server.response :=
  let habit := List.find (fun h => id h =? habitId) habits in
  Server.analytics
    ((fun h => {| Server.habit_id := id h; Server.startDate := startDate h |}) <$> habit)
    table habitId now.

End Api.

(* ===================================================================== *)
(** ** The client: the pie chart and the handlers of the component *)
(* ===================================================================== *)

Module Ui.

Record Slice := { slice_name : string; slice_value : Z }.

(** [pieData].  An invalid start date makes [diffMs] NaN, and
    [NaN >= 0] is false. *)
Definition pieData `{DateAPI} (analytics : option Frontend.HabitAnalytics)
    (selectedHabit : option Frontend.Habit) (now : Z) : list Slice :=
  match analytics, selectedHabit with
  | Some a, Some h =>
      let start := setHours0 <$> parseDate (Frontend.startDate h) in
      let today := setHours0 now in
      let totalDays :=
        match start with
        | Some start0 =>
            let diffMs := today - start0 in
            if 0 <=? diffMs
            then Math_floor (js_div (inject_Z diffMs) (inject_Z MS_PER_DAY)) + 1
            else 0
        | None => 0
        end in
      let completed := Frontend.totalCompletions a in
      let missed := Z.max (totalDays - completed) 0 in
      [ {| slice_name := "Completed"; slice_value := completed |};
        {| slice_name := "Missed"; slice_value := missed |} ]
  | _, _ => []
  end.

(** The [Authorization] header of [authHeaders]: none without a token. *)
Definition authHeaders (token : option string) : option string :=
  match Text.present token with
  | Some t => Some ("Bearer " +:+ t)
  | None => None
  end.

(** [type Habit] in full, and the part of it the charts read. *)
Record HabitItem := {
  item_id : Z;
  item_title : string;
  item_description : option string;
  item_frequency : string;
  item_startDate : string;
  item_category : option string
}.

Definition chart_habit (h : HabitItem) : Frontend.Habit :=
  {| Frontend.habit_id := item_id h; Frontend.startDate := item_startDate h |}.

(** The state cells that the handlers below and the analytics panel read
    or write. *)
Record State := {
  isLogin : bool;
  token : option string;
  currentUser : option Api.PublicUser;
  message : string;
  habits : list HabitItem;
  editingHabit : option HabitItem;
  selectedHabit : option HabitItem;
  analytics : option Frontend.HabitAnalytics;
  loadingAnalytics : bool;
  analyticsLogs : list string
}.

(** What a [fetch] gives a handler: a response that is ok with its data,
    a response that is not ok with the [message] of its body when it has
    one, or an exception with its message. *)
Inductive fetched (A : Type) : Type :=
| Fetched (data : A)
| NotOk (message : option string)
| Thrown (message : string).
Arguments Fetched {A} data.
Arguments NotOk {A} message.
Arguments Thrown {A} message.

(** [x || fallback] on a message. *)
Definition or_else (x : option string) (fallback : string) : string :=
  default fallback (Text.present x).

(** [handleSubmit], after the request. *)
Definition handleSubmit (st : State) (res : fetched Api.AuthResponse) : State :=
  match res with
  | Fetched data =>
      {| isLogin := isLogin st;
         token := Some (Api.auth_token data);
         currentUser := Some (Api.auth_user data);
         message := if isLogin st then "Logged in successfully"
                    else "Registered successfully";
         habits := habits st; editingHabit := editingHabit st;
         selectedHabit := selectedHabit st; analytics := analytics st;
         loadingAnalytics := loadingAnalytics st;
         analyticsLogs := analyticsLogs st |}
  | NotOk m =>
      {| isLogin := isLogin st; token := token st; currentUser := currentUser st;
         message := or_else (Some (or_else m "Request failed")) "Something went wrong";
         habits := habits st; editingHabit := editingHabit st;
         selectedHabit := selectedHabit st; analytics := analytics st;
         loadingAnalytics := loadingAnalytics st;
         analyticsLogs := analyticsLogs st |}
  | Thrown m =>
      {| isLogin := isLogin st; token := token st; currentUser := currentUser st;
         message := or_else (Some m) "Something went wrong";
         habits := habits st; editingHabit := editingHabit st;
         selectedHabit := selectedHabit st; analytics := analytics st;
         loadingAnalytics := loadingAnalytics st;
         analyticsLogs := analyticsLogs st |}
  end.

(** [handleLogout]. *)
Definition handleLogout (st : State) : State :=
  {| isLogin := isLogin st;
     token := None;
     currentUser := None;
     message := "Logged out";
     habits := [];
     editingHabit := None;
     selectedHabit := selectedHabit st; analytics := analytics st;
     loadingAnalytics := loadingAnalytics st;
     analyticsLogs := analyticsLogs st |}.

(** [loadAnalytics], after the request: the response of the server when
    the request went through, the message of the exception otherwise. *)
Definition loadAnalytics `{DateAPI} (st : State) (habit : HabitItem)
    (res : fetched Server.response) : State :=
  match res with
  | Fetched (Server.Json logs stats) =>
      let '(a, dates) := Engine.loadAnalytics (Server.Json logs stats) in
      {| isLogin := isLogin st; token := token st; currentUser := currentUser st;
         message := message st;
         habits := habits st; editingHabit := editingHabit st;
         selectedHabit := Some habit; analytics := a;
         loadingAnalytics := false;
         analyticsLogs := dates |}
  | Fetched Server.NotFound | NotOk _ =>
      {| isLogin := isLogin st; token := token st; currentUser := currentUser st;
         message := "Failed to load analytics";
         habits := habits st; editingHabit := editingHabit st;
         selectedHabit := Some habit; analytics := None;
         loadingAnalytics := false;
         analyticsLogs := [] |}
  | Thrown m =>
      {| isLogin := isLogin st; token := token st; currentUser := currentUser st;
         message := or_else (Some m) "Failed to load analytics";
         habits := habits st; editingHabit := editingHabit st;
         selectedHabit := Some habit; analytics := None;
         loadingAnalytics := false;
         analyticsLogs := [] |}
  end.

(** The analytics panel is rendered for a logged-in user with a selected
    habit. *)
Definition panel_shown (st : State) : bool :=
  bool_decide (is_Some (Text.present (token st)))
  && bool_decide (is_Some (currentUser st))
  && bool_decide (is_Some (selectedHabit st)).

(** What the panel shows: the four numbers and the four charts. *)
Definition panel `{DateAPI} (st : State) (now : Z)
    : result Engine.AnalyticsResult * list Slice :=
  (Engine.derive (analytics st) (chart_habit <$> selectedHabit st)
     (analyticsLogs st) now,
   pieData (analytics st) (chart_habit <$> selectedHabit st) now).

End Ui.

(* ===================================================================== *)
(** ** Vocabulary of the further properties *)
(* ===================================================================== *)

Module Props.

(** The [k] days from [s] on are all completed. *)
Definition is_run (days : list Z) (s k : Z) : Prop :=
  forall j, 0 <= j < k -> In (s + j) days.

(** The sum of the bars of a chart. *)
Definition bars_total (bars : list Frontend.Bar) : Z :=
  foldr (fun b acc => Frontend.value b + acc) 0 bars.

(** The compound key of a log. *)
Definition key (r : Server.HabitLog) : Z * Z := (Server.habitId r, Server.date r).

(** A request to [POST /habits/:id/logs]: the user, the id the store
    would give a new row, the habit and the date of the body. *)
Record LogRequest := {
  req_user : Api.Claims;
  req_fresh : Z;
  req_habit : Z;
  req_date : option string
}.

(** The log table after a sequence of requests. *)
Definition after_posts `{DateAPI} (table : list Server.HabitLog)
    (requests : list LogRequest) : list Server.HabitLog :=
  fold_left (fun t q => fst (Api.postLog t (req_user q) (req_fresh q)
                               (req_habit q) (req_date q)))
            requests table.

(** The body [{ archived: false }] of a PATCH. *)
Definition unarchive : Api.HabitBody :=
  {| Api.b_title := None; Api.b_description := None; Api.b_frequency := None;
     Api.b_startDate := None; Api.b_category := None; Api.b_archived := Some false |}.

(** What DELETE does to a row, and what the upsert does to one. *)
Definition archive_of (habitId : Z) (x : Api.HabitRow) : Api.HabitRow :=
  if Api.id x =? habitId then Api.archive x else x.

Definition complete_of (habitId date : Z) (x : Server.HabitLog) : Server.HabitLog :=
  if Api.same_key habitId date x then Api.complete x else x.

(** The habits a list reply shows. *)
Definition listed (r : Api.reply (list Api.HabitRow)) : list Api.HabitRow :=
  match r with
  | Api.Json _ l => l
  | Api.Message _ _ => []
  end.

(** *** Sample data *)

(** Stand-ins for the two libraries, to run the handlers: the hash is the
    salt followed by the password, the token is the email of the user. *)
Definition sample_crypto : Api.Crypto :=
  {| Api.bcrypt_hash := fun salt p => salt +:+ p;
     Api.bcrypt_compare := fun p hashed => String.eqb (String.substring 2 (String.length p) hashed) p
                                           && (String.length hashed =? 2 + String.length p)%nat;
     Api.jwt_sign := fun c => Api.claim_email c;
     Api.jwt_verify := fun t => if String.eqb t EmptyString then None
                                else Some {| Api.claim_id := 1; Api.claim_email := t |} |}.

(** The user table after [alice@example.org] registered with the password
    [secret] and the salt [s1]. *)
Definition sample_users : list Api.User :=
  [ {| Api.user_id := 1; Api.email := "alice@example.org"; Api.password := "s1secret";
       Api.name := None |} ].

Definition alice : Api.Claims := {| Api.claim_id := 1; Api.claim_email := "alice@example.org" |}.

Definition bob : Api.Claims := {| Api.claim_id := 2; Api.claim_email := "bob@example.org" |}.

Definition sample_body : Api.HabitBody :=
  {| Api.b_title := Some "Read"%string; Api.b_description := None;
     Api.b_frequency := Some "daily"%string; Api.b_startDate := Some "2024-02-03"%string;
     Api.b_category := None; Api.b_archived := None |}.

(** The habit that [sample_body] creates for [alice]. *)
Definition sample_row : Api.HabitRow :=
  {| Api.id := 1; Api.title := "Read"; Api.description := None; Api.frequency := "daily";
     Api.startDate := 19756 * MS_PER_DAY; Api.category := None; Api.userId := 1;
     Api.archived := false; Api.createdAt := 0 |}.

Definition sample_state : Ui.State :=
  {| Ui.isLogin := true; Ui.token := Some "alice@example.org"%string;
     Ui.currentUser := Some {| Api.pub_id := 1; Api.pub_email := "alice@example.org";
                               Api.pub_name := None |};
     Ui.message := EmptyString; Ui.habits := []; Ui.editingHabit := None;
     Ui.selectedHabit := Some {| Ui.item_id := 1; Ui.item_title := "Read";
                                 Ui.item_description := None; Ui.item_frequency := "daily";
                                 Ui.item_startDate := "2024-02-03"; Ui.item_category := None |};
     Ui.analytics := Some Spec.sample_analytics;
     Ui.loadingAnalytics := false;
     Ui.analyticsLogs := Spec.sample_logs |}.

End Props.

(** Equality of two explicit lists, one element at a time. *)
Ltac by_bucket tac := repeat (apply (f_equal2 cons); [tac |]); try reflexivity.

(* ===================================================================== *)
(** ** Rounding to binary64 *)
(* ===================================================================== *)

Module Rounding.

Import Spec.

Section Rounding.
Local Open Scope Q_scope.

Lemma pow2_pos (e : Z) : 0 < 2 ^ e.
Proof. apply Qpower_0_lt. reflexivity. Qed.

Lemma pow2_add (a b : Z) : 2 ^ (a + b) == 2 ^ a * 2 ^ b.
Proof. apply Qpower_plus. discriminate. Qed.

Lemma pow2_le (a b : Z) : (a <= b)%Z -> 2 ^ a <= 2 ^ b.
Proof. intros H. apply Qpower_le_compat_l; [exact H | discriminate]. Qed.

Lemma pow2_lt (a b : Z) : (a < b)%Z -> 2 ^ a < 2 ^ b.
Proof. intros H. apply Qpower_lt_compat_l; [exact H | reflexivity]. Qed.

Lemma pow2_Z (n : Z) : (0 <= n)%Z -> inject_Z (2 ^ n) == 2 ^ n.
Proof. intros H. apply (Zpower_Qpower 2 n H). Qed.

Lemma pow2_succ (a : Z) : 2 ^ (a + 1) == 2 * 2 ^ a.
Proof. rewrite pow2_add. change (2 ^ 1) with 2. ring. Qed.


Lemma Qnum_pos_iff (x : Q) : (0 < Qnum x)%Z <-> 0 < x.
Proof. destruct x as [n d]. unfold Qlt. simpl. lia. Qed.

Lemma Q_as_fraction (x : Q) : x * inject_Z (Zpos (Qden x)) == inject_Z (Qnum x).
Proof.
  destruct x as [n d]. simpl. unfold Qeq, Qmult, inject_Z. simpl. lia.
Qed.

(** The binary exponent brackets its argument. *)
Lemma ilog2_spec (x : Q) :
  0 < x -> 2 ^ ilog2 x <= x /\ x < 2 ^ (ilog2 x + 1).
Proof.
  intros Hx.
  pose proof (proj2 (Qnum_pos_iff x) Hx) as Hn.
  pose proof (Q_as_fraction x) as Hfrac.
  destruct (Z.log2_spec (Qnum x) Hn) as [Hn1 Hn2].
  destruct (Z.log2_spec (Zpos (Qden x)) eq_refl) as [Hd1 Hd2].
  pose proof (Z.log2_nonneg (Qnum x)) as Ha.
  pose proof (Z.log2_nonneg (Zpos (Qden x))) as Hb.
  set (a := Z.log2 (Qnum x)) in *. set (b := Z.log2 (Zpos (Qden x))) in *.
  assert (HN1 : 2 ^ a <= inject_Z (Qnum x)).
  { rewrite <- pow2_Z by lia. rewrite <- Zle_Qle. exact Hn1. }
  assert (HN2 : inject_Z (Qnum x) < 2 ^ (a + 1)).
  { rewrite <- pow2_Z by lia. rewrite <- Zlt_Qlt. exact Hn2. }
  assert (HD1 : 2 ^ b <= inject_Z (Zpos (Qden x))).
  { rewrite <- pow2_Z by lia. rewrite <- Zle_Qle. exact Hd1. }
  assert (HD2 : inject_Z (Zpos (Qden x)) < 2 ^ (b + 1)).
  { rewrite <- pow2_Z by lia. rewrite <- Zlt_Qlt. exact Hd2. }
  set (D := inject_Z (Zpos (Qden x))) in *. set (N := inject_Z (Qnum x)) in *.
  unfold ilog2. fold a b.
  pose proof (pow2_pos b) as Pb. pose proof (pow2_pos (a - b)) as Pc.
  assert (Hab : 2 ^ a == 2 ^ (a - b) * 2 ^ b).
  { rewrite <- pow2_add. replace (a - b + b)%Z with a by lia. reflexivity. }
  rewrite (pow2_succ a) in HN2. rewrite (pow2_succ b) in HD2.
  destruct (Qle_bool (2 ^ (a - b)) x) eqn:E.
  - apply Qle_bool_iff in E. split; [exact E |].
    rewrite pow2_succ. nra.
  - assert (E' : x < 2 ^ (a - b)).
    { apply Qnot_le_lt. intros H. apply Qle_bool_iff in H. congruence. }
    replace (a - b - 1 + 1)%Z with (a - b)%Z by lia. split; [| exact E'].
    assert (Hc : 2 ^ (a - b) == 2 * 2 ^ (a - b - 1)).
    { rewrite <- pow2_succ. replace (a - b - 1 + 1)%Z with (a - b)%Z by lia. reflexivity. }
    pose proof (pow2_pos (a - b - 1)) as Pc'.
    nra.
Qed.

Lemma ilog2_unique (x : Q) (e : Z) :
  2 ^ e <= x -> x < 2 ^ (e + 1) -> ilog2 x = e.
Proof.
  intros H1 H2.
  assert (Hx : 0 < x) by (pose proof (pow2_pos e); lra).
  destruct (ilog2_spec x Hx) as [H3 H4].
  destruct (Z.lt_trichotomy (ilog2 x) e) as [H | [H | H]]; [| exact H |].
  - exfalso. assert (2 ^ (ilog2 x + 1) <= 2 ^ e) by (apply pow2_le; lia). lra.
  - exfalso. assert (2 ^ (e + 1) <= 2 ^ ilog2 x) by (apply pow2_le; lia). lra.
Qed.

Lemma ilog2_comp (x y : Q) : 0 < x -> x == y -> ilog2 x = ilog2 y.
Proof.
  intros Hx E. symmetry. destruct (ilog2_spec x Hx) as [H1 H2].
  apply ilog2_unique; rewrite <- E; assumption.
Qed.

Lemma ilog2_mono (x y : Q) : 0 < x -> x <= y -> (ilog2 x <= ilog2 y)%Z.
Proof.
  intros Hx Hxy.
  destruct (ilog2_spec x Hx) as [H1 _].
  destruct (ilog2_spec y) as [_ H2]; [lra |].
  destruct (Z_le_gt_dec (ilog2 x) (ilog2 y)) as [H | H]; [exact H | exfalso].
  assert (2 ^ (ilog2 y + 1) <= 2 ^ ilog2 x) by (apply pow2_le; lia). lra.
Qed.


Lemma Qfloor_bounds (x : Q) : inject_Z (Qfloor x) <= x /\ x < inject_Z (Qfloor x) + 1.
Proof.
  split; [apply Qfloor_le |].
  pose proof (Qlt_floor x) as H. rewrite inject_Z_plus in H. exact H.
Qed.

Lemma rne_cases (x : Q) :
  (rne x = Qfloor x /\ x - inject_Z (Qfloor x) <= 1 # 2) \/
  (rne x = (Qfloor x + 1)%Z /\ 1 # 2 <= x - inject_Z (Qfloor x)).
Proof.
  unfold rne. set (f := Qfloor x).
  destruct (Qcompare_spec (x - inject_Z f) (1 # 2)) as [E | E | E].
  - destruct (Z.even f); [left | right]; split; try reflexivity; lra.
  - left. split; [reflexivity | lra].
  - right. split; [reflexivity | lra].
Qed.

Lemma rne_near (x : Q) :
  x - (1 # 2) <= inject_Z (rne x) /\ inject_Z (rne x) <= x + (1 # 2).
Proof.
  destruct (Qfloor_bounds x) as [H1 H2].
  destruct (rne_cases x) as [[-> H] | [-> H]]; rewrite ?inject_Z_plus;
    change (inject_Z 1) with 1; lra.
Qed.

Lemma rne_ge_int (x : Q) (k : Z) : inject_Z k <= x -> (k <= rne x)%Z.
Proof.
  intros H. apply Qfloor_resp_le in H. rewrite Qfloor_Z in H.
  destruct (rne_cases x) as [[-> _] | [-> _]]; lia.
Qed.

Lemma rne_le_int (x : Q) (k : Z) : x <= inject_Z k -> (rne x <= k)%Z.
Proof.
  intros H. pose proof (Qfloor_resp_le _ _ H) as Hf. rewrite Qfloor_Z in Hf.
  destruct (rne_cases x) as [[-> _] | [-> Hr]]; [exact Hf |].
  destruct (Z.eq_dec (Qfloor x) k) as [E | E]; [exfalso | lia].
  rewrite E in Hr. lra.
Qed.

Lemma rne_Z (k : Z) : rne (inject_Z k) = k.
Proof.
  apply Z.le_antisymm; [apply rne_le_int | apply rne_ge_int]; apply Qle_refl.
Qed.

Lemma rne_comp (x y : Q) : x == y -> rne x = rne y.
Proof.
  intros E. unfold rne. rewrite (Qfloor_comp x y E).
  assert (E' : x - inject_Z (Qfloor y) == y - inject_Z (Qfloor y)) by (rewrite E; reflexivity).
  rewrite (Qcompare_comp _ _ E' _ _ (Qeq_refl (1 # 2))). reflexivity.
Qed.

Lemma rne_mono (x y : Q) : x <= y -> (rne x <= rne y)%Z.
Proof.
  intros H. pose proof (Qfloor_resp_le _ _ H) as Hf.
  destruct (Z.eq_dec (Qfloor x) (Qfloor y)) as [E | E].
  - unfold rne. rewrite E.
    destruct (Qcompare_spec (x - inject_Z (Qfloor y)) (1 # 2)) as [E1 | E1 | E1];
    destruct (Qcompare_spec (y - inject_Z (Qfloor y)) (1 # 2)) as [E2 | E2 | E2];
    try lia; try (exfalso; lra); destruct (Z.even (Qfloor y)); lia.
  - destruct (rne_cases x) as [[-> _] | [-> _]];
    destruct (rne_cases y) as [[-> _] | [-> _]]; lia.
Qed.

(** The scaled significand lies in [[2^52, 2^53)] before rounding. *)
Lemma significand_range (x : Q) :
  0 < x ->
  let e := (ilog2 x - (prec - 1))%Z in
  2 ^ (prec - 1) <= x / 2 ^ e /\ x / 2 ^ e < 2 ^ prec.
Proof.
  intros Hx e. destruct (ilog2_spec x Hx) as [H1 H2].
  pose proof (pow2_pos e) as Pe.
  assert (A : 2 ^ ilog2 x == 2 ^ (prec - 1) * 2 ^ e).
  { rewrite <- pow2_add. unfold e. f_equiv. lia. }
  assert (B : 2 ^ (ilog2 x + 1) == 2 ^ prec * 2 ^ e).
  { rewrite <- pow2_add. unfold e, prec. f_equiv. lia. }
  rewrite A in H1. rewrite B in H2.
  split.
  - apply Qle_shift_div_l; assumption.
  - apply Qlt_shift_div_r; assumption.
Qed.

Lemma round64_pos_range (x : Q) :
  0 < x ->
  2 ^ ilog2 x <= round64_pos x /\ round64_pos x <= 2 ^ (ilog2 x + 1).
Proof.
  intros Hx. destruct (significand_range x Hx) as [H1 H2]. cbv zeta in H1, H2.
  unfold round64_pos. set (e := (ilog2 x - (prec - 1))%Z) in *.
  pose proof (pow2_pos e) as Pe.
  assert (L : (2 ^ (prec - 1) <= rne (x / 2 ^ e))%Z).
  { apply rne_ge_int. rewrite pow2_Z by (unfold prec; lia). exact H1. }
  assert (U : (rne (x / 2 ^ e) <= 2 ^ prec)%Z).
  { apply rne_le_int. rewrite pow2_Z by (unfold prec; lia). lra. }
  rewrite Zle_Qle in L, U. rewrite pow2_Z in L, U by (unfold prec; lia).
  assert (A : 2 ^ ilog2 x == 2 ^ (prec - 1) * 2 ^ e).
  { rewrite <- pow2_add. unfold e. f_equiv. lia. }
  assert (B : 2 ^ (ilog2 x + 1) == 2 ^ prec * 2 ^ e).
  { rewrite <- pow2_add. unfold e, prec. f_equiv. lia. }
  rewrite A, B. split; apply Qmult_le_compat_r; lra.
Qed.

Lemma round64_pos_pos (x : Q) : 0 < x -> 0 < round64_pos x.
Proof.
  intros Hx. destruct (round64_pos_range x Hx) as [H _].
  pose proof (pow2_pos (ilog2 x)). lra.
Qed.

Lemma round64_pos_comp (x y : Q) : 0 < x -> x == y -> round64_pos x == round64_pos y.
Proof.
  intros Hx E. unfold round64_pos. rewrite <- (ilog2_comp x y Hx E).
  set (e := (ilog2 x - (prec - 1))%Z).
  assert (E' : x / 2 ^ e == y / 2 ^ e) by (rewrite E; reflexivity).
  rewrite (rne_comp _ _ E'). reflexivity.
Qed.

Lemma round64_pos_mono (x y : Q) :
  0 < x -> x <= y -> round64_pos x <= round64_pos y.
Proof.
  intros Hx Hxy. assert (Hy : 0 < y) by lra.
  pose proof (ilog2_mono x y Hx Hxy) as He.
  destruct (Z.eq_dec (ilog2 x) (ilog2 y)) as [E | E].
  - unfold round64_pos. rewrite E. set (e := (ilog2 y - (prec - 1))%Z).
    pose proof (pow2_pos e) as Pe.
    apply Qmult_le_compat_r; [| lra].
    rewrite <- Zle_Qle. apply rne_mono.
    apply Qmult_le_compat_r; [exact Hxy |].
    apply Qlt_le_weak, Qinv_lt_0_compat, Pe.
  - destruct (round64_pos_range x Hx) as [_ U].
    destruct (round64_pos_range y Hy) as [L _].
    assert (2 ^ (ilog2 x + 1) <= 2 ^ ilog2 y) by (apply pow2_le; lia).
    lra.
Qed.


Lemma round64_of_pos (x : Q) : 0 < x -> round64 x = round64_pos x.
Proof.
  intros Hx. apply Qnum_pos_iff in Hx. unfold round64.
  destruct (Qnum x); try lia. reflexivity.
Qed.

Lemma round64_of_zero (x : Q) : x == 0 -> round64 x = 0.
Proof.
  intros Hx. unfold round64. destruct x as [n d]. unfold Qeq in Hx. simpl in *.
  destruct n; try lia. reflexivity.
Qed.

Lemma round64_of_neg (x : Q) : x < 0 -> round64 x = - round64_pos (- x).
Proof.
  intros Hx. unfold round64. destruct x as [n d]. unfold Qlt in Hx. simpl in *.
  destruct n; try lia. reflexivity.
Qed.

Lemma round64_comp (x y : Q) : x == y -> round64 x == round64 y.
Proof.
  intros E. destruct (Q_dec x 0) as [[H | H] | H].
  - rewrite (round64_of_neg x H), (round64_of_neg y) by lra.
    apply Qopp_comp, round64_pos_comp; lra.
  - rewrite (round64_of_pos x H), (round64_of_pos y) by lra.
    apply round64_pos_comp; assumption.
  - rewrite (round64_of_zero x H), (round64_of_zero y) by lra. reflexivity.
Qed.

Lemma round64_nonneg (x : Q) : 0 <= x -> 0 <= round64 x.
Proof.
  intros H. destruct (Q_dec x 0) as [[H' | H'] | H'].
  - lra.
  - rewrite round64_of_pos by assumption.
    apply Qlt_le_weak, round64_pos_pos. assumption.
  - rewrite round64_of_zero by assumption. lra.
Qed.

(** Rounding to binary64 is monotone. *)
Lemma round64_mono (x y : Q) : x <= y -> round64 x <= round64 y.
Proof.
  intros H.
  destruct (Q_dec x 0) as [[Hx | Hx] | Hx]; destruct (Q_dec y 0) as [[Hy | Hy] | Hy];
    try (exfalso; lra).
  - rewrite (round64_of_neg x Hx), (round64_of_neg y Hy).
    apply Qopp_le_compat, round64_pos_mono; lra.
  - rewrite (round64_of_neg x Hx), (round64_of_pos y Hy).
    pose proof (round64_pos_pos (- x)). pose proof (round64_pos_pos y). lra.
  - rewrite (round64_of_neg x Hx), (round64_of_zero y Hy).
    pose proof (round64_pos_pos (- x)). lra.
  - rewrite (round64_of_pos x Hx), (round64_of_pos y Hy).
    apply round64_pos_mono; assumption.
  - rewrite (round64_of_zero x Hx), (round64_of_pos y Hy).
    pose proof (round64_pos_pos y). lra.
  - rewrite (round64_of_zero x Hx), (round64_of_zero y Hy). lra.
Qed.

(** A value with a significand below [2^53] is its own rounding. *)
Lemma round64_pos_exact (m e : Z) :
  (0 < m < 2 ^ prec)%Z ->
  round64_pos (inject_Z m * 2 ^ e) == inject_Z m * 2 ^ e.
Proof.
  intros [Hm1 Hm2]. set (x := inject_Z m * 2 ^ e).
  pose proof (pow2_pos e) as Pe.
  assert (Hm1' : 0 < inject_Z m) by (rewrite (Zlt_Qlt 0 m) in Hm1; exact Hm1).
  assert (Hm2' : inject_Z m < 2 ^ prec).
  { rewrite <- pow2_Z by (unfold prec; lia). rewrite <- Zlt_Qlt. exact Hm2. }
  assert (Hx : 0 < x) by (unfold x; nra).
  destruct (ilog2_spec x Hx) as [H1 _].
  assert (Hlog : (ilog2 x - (prec - 1) <= e)%Z).
  { destruct (Z_le_gt_dec (ilog2 x) (prec - 1 + e)) as [H | H]; [lia | exfalso].
    assert (2 ^ (prec + e) <= 2 ^ ilog2 x) by (apply pow2_le; lia).
    rewrite pow2_add in H0. assert (Hxe : x == inject_Z m * 2 ^ e) by reflexivity.
    assert (inject_Z m * 2 ^ e < 2 ^ prec * 2 ^ e) by (apply Qmult_lt_compat_r; assumption).
    lra. }
  unfold round64_pos. set (E := (ilog2 x - (prec - 1))%Z) in *.
  pose proof (pow2_pos E) as PE.
  assert (Hsplit : 2 ^ e == 2 ^ (e - E) * 2 ^ E).
  { rewrite <- pow2_add. f_equiv. lia. }
  assert (Hint : x / 2 ^ E == inject_Z (m * 2 ^ (e - E))).
  { rewrite inject_Z_mult, pow2_Z by lia. unfold x. rewrite Hsplit. field. lra. }
  rewrite (rne_comp _ _ Hint), rne_Z.
  rewrite inject_Z_mult, pow2_Z by lia. unfold x. rewrite Hsplit. ring.
Qed.

Lemma inject_Z_pos (k : Z) : (0 < k)%Z -> 0 < inject_Z k.
Proof. intros H. rewrite (Zlt_Qlt 0 k) in H. exact H. Qed.

Lemma round64_Z (k : Z) : (Z.abs k < 2 ^ prec)%Z -> round64 (inject_Z k) == inject_Z k.
Proof.
  intros Hk. destruct (Z.lt_trichotomy k 0) as [H | [H | H]].
  - rewrite round64_of_neg by (rewrite (Zlt_Qlt k 0) in H; exact H).
    rewrite <- inject_Z_opp.
    assert (E : inject_Z (- k) == inject_Z (- k) * 2 ^ 0) by (change (2 ^ 0) with 1; ring).
    rewrite (round64_pos_comp _ _ (inject_Z_pos (- k) ltac:(lia)) E).
    rewrite round64_pos_exact by lia. rewrite inject_Z_opp. change (2 ^ 0) with 1. ring.
  - subst k. reflexivity.
  - rewrite round64_of_pos by (apply inject_Z_pos; exact H).
    assert (E : inject_Z k == inject_Z k * 2 ^ 0) by (change (2 ^ 0) with 1; ring).
    rewrite (round64_pos_comp _ _ (inject_Z_pos k H) E).
    rewrite round64_pos_exact by lia. change (2 ^ 0) with 1. ring.
Qed.

Lemma Math_round_Z (x : Q) (k : Z) : x == inject_Z k -> Math_round x = k.
Proof.
  intros E. unfold Math_round.
  assert (E' : x + (1 # 2) == inject_Z k + (1 # 2)) by (rewrite E; reflexivity).
  rewrite (Qfloor_comp _ _ E').
  destruct (Qfloor_bounds (inject_Z k + (1 # 2))) as [H1 H2].
  set (f := Qfloor (inject_Z k + (1 # 2))) in *.
  assert (A : (f <= k)%Z).
  { destruct (Z_le_gt_dec f k) as [H | H]; [exact H | exfalso].
    assert (inject_Z (k + 1) <= inject_Z f) by (rewrite <- Zle_Qle; lia).
    rewrite inject_Z_plus in H0. change (inject_Z 1) with 1 in H0. lra. }
  assert (B : (k <= f)%Z).
  { destruct (Z_le_gt_dec k f) as [H | H]; [exact H | exfalso].
    assert (inject_Z (f + 1) <= inject_Z k) by (rewrite <- Zle_Qle; lia).
    rewrite inject_Z_plus in H0. change (inject_Z 1) with 1 in H0. lra. }
  lia.
Qed.

Lemma Math_round_mono (x y : Q) : x <= y -> (Math_round x <= Math_round y)%Z.
Proof. intros H. apply Qfloor_resp_le. lra. Qed.


(** *** The rounding error *)

Lemma eps_pos : 0 < eps.
Proof. apply pow2_pos. Qed.

Lemma round64_pos_error (x : Q) :
  0 < x -> x - x * eps <= round64_pos x /\ round64_pos x <= x + x * eps.
Proof.
  intros Hx. destruct (ilog2_spec x Hx) as [H1 _].
  unfold round64_pos. set (e := (ilog2 x - (prec - 1))%Z) in *.
  pose proof (pow2_pos e) as Pe.
  destruct (rne_near (x / 2 ^ e)) as [N1 N2].
  set (m := inject_Z (rne (x / 2 ^ e))) in *.
  assert (Hy : x / 2 ^ e * 2 ^ e == x) by (field; lra).
  set (y := x / 2 ^ e) in *.
  assert (A : 2 ^ ilog2 x * eps == 2 ^ e * (1 # 2)).
  { unfold eps. rewrite <- pow2_add.
    replace (ilog2 x + - prec)%Z with (e + -1)%Z by (unfold e; lia).
    rewrite pow2_add. reflexivity. }
  pose proof eps_pos as Peps.
  assert (B : 2 ^ e * (1 # 2) <= x * eps).
  { rewrite <- A. apply Qmult_le_compat_r; lra. }
  split; nra.
Qed.

Lemma round64_error (x : Q) :
  0 <= x -> x - x * eps <= round64 x /\ round64 x <= x + x * eps.
Proof.
  intros Hx. destruct (Qle_lt_or_eq _ _ Hx) as [H | H].
  - rewrite round64_of_pos by exact H. apply round64_pos_error, H.
  - rewrite round64_of_zero by (symmetry; exact H). rewrite <- H. split; lra.
Qed.

Lemma Qfloor_unique (x : Q) (k : Z) :
  inject_Z k <= x -> x < inject_Z k + 1 -> Qfloor x = k.
Proof.
  intros H1 H2. destruct (Qfloor_bounds x) as [F1 F2].
  destruct (Z.lt_trichotomy (Qfloor x) k) as [H | [H | H]]; [exfalso | exact H | exfalso].
  - assert (inject_Z (Qfloor x + 1) <= inject_Z k) by (rewrite <- Zle_Qle; lia).
    rewrite inject_Z_plus in H0. change (inject_Z 1) with 1 in H0. lra.
  - assert (inject_Z (k + 1) <= inject_Z (Qfloor x)) by (rewrite <- Zle_Qle; lia).
    rewrite inject_Z_plus in H0. change (inject_Z 1) with 1 in H0. lra.
Qed.

Lemma eps_small (n : Z) : (0 <= n < 2 ^ prec)%Z -> inject_Z n * eps < 1.
Proof.
  intros [H0 H1]. pose proof eps_pos as Peps.
  assert (A : inject_Z n < 2 ^ prec).
  { rewrite <- pow2_Z by (unfold prec; lia). rewrite <- Zlt_Qlt. exact H1. }
  assert (B : 2 ^ prec * eps == 1).
  { unfold eps. rewrite <- pow2_add. replace (prec + - prec)%Z with 0%Z by lia. reflexivity. }
  assert (inject_Z n * eps < 2 ^ prec * eps) by (apply Qmult_lt_compat_r; assumption).
  lra.
Qed.

(** The floor of a rounded quotient of integers below [2^53] is the
    integer quotient. *)
Lemma Math_floor_js_div (n d : Z) :
  (0 <= n < 2 ^ prec)%Z -> (0 < d)%Z ->
  Math_floor (js_div (inject_Z n) (inject_Z d)) = (n / d)%Z.
Proof.
  intros Hn Hd. unfold Math_floor, js_div.
  set (x := inject_Z n / inject_Z d).
  pose proof (inject_Z_pos d Hd) as HD.
  assert (Hxd : x * inject_Z d == inject_Z n) by (unfold x; field; lra).
  assert (Hn0 : 0 <= inject_Z n) by (rewrite (Zle_Qle 0 n) in Hn; tauto).
  assert (Hx : 0 <= x).
  { unfold x. apply Qle_shift_div_l; [exact HD | lra]. }
  set (k := (n / d)%Z).
  assert (Hk : (d * k <= n < d * (k + 1))%Z).
  { unfold k. pose proof (Z.mul_div_le n d Hd). pose proof (Z.mul_succ_div_gt n d Hd). lia. }
  assert (Hk0 : (0 <= k)%Z) by (unfold k; apply Z.div_pos; lia).
  assert (K1 : inject_Z k <= x).
  { apply Qmult_le_r with (z := inject_Z d); [exact HD |].
    rewrite Hxd, <- inject_Z_mult, <- Zle_Qle. lia. }
  assert (K2 : inject_Z n + 1 <= (inject_Z k + 1) * inject_Z d).
  { change 1 with (inject_Z 1). rewrite <- !inject_Z_plus, <- inject_Z_mult, <- Zle_Qle. lia. }
  apply Qfloor_unique.
  - rewrite <- (round64_Z k) by nia. apply round64_mono, K1.
  - destruct (round64_error x Hx) as [_ U].
    pose proof (eps_small n Hn) as He. pose proof eps_pos as Peps.
    apply Qmult_lt_r with (z := inject_Z d); [exact HD |].
    assert (round64 x * inject_Z d <= (x + x * eps) * inject_Z d)
      by (apply Qmult_le_compat_r; lra).
    assert ((x + x * eps) * inject_Z d == inject_Z n + inject_Z n * eps)
      by (rewrite <- Hxd; ring).
    lra.
Qed.


(** Two roundings, of [t / e] and of the product with 100, stay within
    [3 * eps] of the exact percentage, relatively. *)
Lemma percent_error (t e : Z) :
  (0 <= t)%Z -> (0 < e)%Z ->
  let r := js_mul (js_div (inject_Z t) (inject_Z e)) 100 in
  let T := inject_Z t in
  100 * T - 300 * (T * eps) <= r * inject_Z e /\
  r * inject_Z e <= 100 * T + 300 * (T * eps).
Proof.
  intros Ht He r T. unfold r, js_mul, js_div. clear r.
  set (E := inject_Z e). set (x := T / E).
  pose proof (inject_Z_pos e He) as HE. fold E in HE.
  assert (HT : 0 <= T) by (unfold T; rewrite (Zle_Qle 0 t) in Ht; exact Ht).
  assert (HxE : x * E == T) by (unfold x; field; lra).
  assert (Hx : 0 <= x) by (unfold x; apply Qle_shift_div_l; [exact HE | lra]).
  destruct (round64_error x Hx) as [L1 U1].
  pose proof (round64_nonneg x Hx) as P1.
  set (r1 := round64 x) in *.
  assert (H100 : 0 <= r1 * 100) by lra.
  destruct (round64_error (r1 * 100) H100) as [L2 U2].
  set (r2 := round64 (r1 * 100)) in *.
  pose proof eps_pos as Peps.
  assert (Peps1 : eps <= 1 # 2).
  { unfold eps. change (1 # 2) with (2 ^ (-1)). apply pow2_le. unfold prec. lia. }
  assert (HTe : 0 <= T * eps) by (apply Qmult_le_0_compat; lra).
  assert (HTee : T * eps * eps <= T * eps * (1 # 2)).
  { rewrite (Qmult_comm (T * eps) eps), (Qmult_comm (T * eps) (1 # 2)).
    apply Qmult_le_compat_r; assumption. }
  assert (HTee0 : 0 <= T * eps * eps) by (apply Qmult_le_0_compat; lra).
  (* scale the two enclosures by E *)
  assert (E1 : (x - x * eps) * E == T - T * eps) by (rewrite <- HxE; ring).
  assert (E2 : (x + x * eps) * E == T + T * eps) by (rewrite <- HxE; ring).
  assert (A1 : T - T * eps <= r1 * E).
  { rewrite <- E1. apply Qmult_le_compat_r; lra. }
  assert (A2 : r1 * E <= T + T * eps).
  { rewrite <- E2. apply Qmult_le_compat_r; lra. }
  assert (B1 : (r1 * 100 - r1 * 100 * eps) * E <= r2 * E)
    by (apply Qmult_le_compat_r; lra).
  assert (B2 : r2 * E <= (r1 * 100 + r1 * 100 * eps) * E)
    by (apply Qmult_le_compat_r; lra).
  assert (C1 : (T - T * eps) * eps <= r1 * E * eps)
    by (apply Qmult_le_compat_r; lra).
  assert (C2 : r1 * E * eps <= (T + T * eps) * eps)
    by (apply Qmult_le_compat_r; lra).
  set (u := r1 * E) in *. set (w := r2 * E) in *.
  assert (F1 : (r1 * 100 - r1 * 100 * eps) * E == 100 * u - 100 * (u * eps))
    by (unfold u; ring).
  assert (F2 : (r1 * 100 + r1 * 100 * eps) * E == 100 * u + 100 * (u * eps))
    by (unfold u; ring).
  assert (F3 : (T + T * eps) * eps == T * eps + T * eps * eps) by ring.
  assert (F4 : (T - T * eps) * eps == T * eps - T * eps * eps) by ring.
  rewrite F1 in B1. rewrite F2 in B2. rewrite F3 in C2. rewrite F4 in C1.
  change (100 * T - 300 * (T * eps) <= w /\ w <= 100 * T + 300 * (T * eps)).
  clearbody u w. split; lra.
Qed.


Lemma Math_round_scaled (r E : Q) (k : Z) :
  0 < E ->
  2 * E * inject_Z k <= 2 * (r * E) + E ->
  2 * (r * E) + E < 2 * E * (inject_Z k + 1) ->
  Math_round r = k.
Proof.
  intros HE L U. unfold Math_round.
  assert (F : (r + (1 # 2)) * (2 * E) == 2 * (r * E) + E) by ring.
  apply Qfloor_unique.
  - apply Qmult_le_r with (z := 2 * E); [lra |]. rewrite F. lra.
  - apply Qmult_lt_r with (z := 2 * E); [lra |]. rewrite F. lra.
Qed.

End Rounding.

End Rounding.

(* ===================================================================== *)
(** ** The server *)
(* ===================================================================== *)

Module ServerFacts.

Import Server Recursion Spec Rounding.

(** On whole days the rounded quotient is the day difference. *)
Lemma diffInDays_whole_days (prev k : Z) :
  Z.abs k < 2 ^ prec -> diffInDays prev (prev + k * MS_PER_DAY) = k.
Proof.
  intros Hk. unfold diffInDays, js_div.
  replace (prev + k * MS_PER_DAY - prev) with (k * MS_PER_DAY) by lia.
  apply Math_round_Z.
  assert (E : (inject_Z (k * MS_PER_DAY) / inject_Z MS_PER_DAY == inject_Z k)%Q).
  { rewrite inject_Z_mult. field. discriminate. }
  rewrite (round64_comp _ _ E). apply round64_Z. exact Hk.
Qed.

Lemma streak_step_at (pre rest : list HabitLog) (p c : HabitLog) (st : Loop) :
  streak_step (pre ++ p :: c :: rest) st (S (length pre))
  = if diffInDays (date p) (date c) =? 1
    then {| streak := streak st + 1; longest := longest st |}
    else {| streak := 1; longest := Z.max (longest st) (streak st) |}.
Proof.
  unfold streak_step.
  replace (S (length pre) - 1)%nat with (length pre) by lia.
  rewrite nth_middle.
  replace (pre ++ p :: c :: rest) with ((pre ++ [p]) ++ c :: rest)
    by (rewrite <- app_assoc; reflexivity).
  replace (S (length pre)) with (length (pre ++ [p]))
    by (rewrite length_app; simpl; lia).
  rewrite nth_middle.
  destruct (diffInDays (date p) (date c) =? 1); [reflexivity |].
  f_equal. destruct (Z.ltb_spec (longest st) (streak st)); lia.
Qed.

Lemma streak_loop_walks (rest pre : list HabitLog) (p : HabitLog) (st : Loop) :
  let st' := fold_left (streak_step (pre ++ p :: rest))
                       (seq (S (length pre)) (length rest)) st in
  (streak st', Z.max (longest st') (streak st'))
  = walk_pairs (date p) (map date rest) (streak st) (longest st).
Proof.
  cbv zeta. revert pre p st.
  induction rest as [| c rest IH]; intros pre p st; [reflexivity |].
  cbn [length seq fold_left map walk_pairs].
  rewrite streak_step_at.
  specialize (IH (pre ++ [p]) c).
  rewrite <- app_assoc, length_app in IH. cbn [app length] in IH.
  replace (length pre + 1)%nat with (S (length pre)) in IH by lia.
  rewrite IH.
  destruct (diffInDays (date p) (date c) =? 1); reflexivity.
Qed.

Lemma streaks_refines (logs : list HabitLog) :
  streaks logs = streaks_rec (map date logs).
Proof.
  destruct logs as [| p rest]; [reflexivity |].
  unfold streaks. simpl length. simpl Nat.ltb. cbv iota.
  replace (S (length rest) - 1)%nat with (length rest) by lia.
  exact (streak_loop_walks rest [] p {| streak := 1; longest := 0 |}).
Qed.


Lemma diffInDays_valid_days (a b : Z) :
  valid_day a -> valid_day b ->
  diffInDays (a * MS_PER_DAY) (b * MS_PER_DAY) = b - a.
Proof.
  intros Ha Hb. unfold valid_day in *.
  replace (b * MS_PER_DAY) with (a * MS_PER_DAY + (b - a) * MS_PER_DAY) by lia.
  apply diffInDays_whole_days. unfold prec. lia.
Qed.

(** On date-only values the test of the loop is the whole-day difference
    of the specification, so the loop is its walk. *)
Lemma walk_pairs_walk_days (rest : list Z) :
  forall p running longest : Z,
    Forall valid_day (p :: rest) ->
    walk_pairs (p * MS_PER_DAY) (whole_days rest) running longest
    = walk_days p rest running longest.
Proof.
  induction rest as [| c rest IH]; intros p running longest Hv; [reflexivity |].
  pose proof (Forall_inv Hv) as Hp. apply Forall_inv_tail in Hv.
  pose proof (Forall_inv Hv) as Hc.
  cbn [whole_days map walk_pairs walk_days]. fold (whole_days rest).
  rewrite (diffInDays_valid_days p c Hp Hc). unfold day_difference.
  destruct (c - p =? 1); apply IH, Hv.
Qed.

Lemma streaks_streak_calculator (logs : list HabitLog) (days : list Z) :
  map date logs = whole_days days ->
  Forall valid_day days ->
  streaks logs = streak_calculator days.
Proof.
  intros Hd Hv. rewrite streaks_refines, Hd.
  destruct days as [| p rest]; [reflexivity |].
  cbn [whole_days map streaks_rec streak_calculator]. fold (whole_days rest).
  apply walk_pairs_walk_days, Hv.
Qed.

Lemma walk_pairs_run (rest : list Z) :
  forall (seen : list Z) (p r longest : Z),
    Sorted Z.lt (p :: rest) ->
    Forall valid_day (p :: rest) ->
    (forall x, In x seen -> x <= p) ->
    1 <= r ->
    (forall j, 0 <= j < r -> In (p - j) seen) ->
    ~ In (p - r) seen ->
    maximal_run_ending_at (seen ++ rest) (List.last (p :: rest) 0)
      (fst (walk_pairs (p * MS_PER_DAY) (whole_days rest) r longest)).
Proof.
  induction rest as [| c rest IH]; intros seen p r lg Hs Hv Hle Hr Hrun Hmax.
  - simpl. rewrite app_nil_r. repeat split; assumption.
  - apply Sorted_inv in Hs. destruct Hs as [Hs Hd]. apply HdRel_inv in Hd.
    pose proof (Forall_inv Hv) as Hvp. apply Forall_inv_tail in Hv.
    pose proof (Forall_inv Hv) as Hvc.
    change (List.last (p :: c :: rest) 0) with (List.last (c :: rest) 0).
    replace (seen ++ c :: rest) with ((seen ++ [c]) ++ rest)
      by (rewrite <- app_assoc; reflexivity).
    cbn [whole_days map walk_pairs]. fold (whole_days rest).
    rewrite (diffInDays_valid_days p c Hvp Hvc).
    destruct (Z.eqb_spec (c - p) 1) as [E | E].
    + apply IH; try assumption; try lia.
      * intros x Hx. apply in_app_or in Hx. destruct Hx as [Hx | [<- | []]]; [| lia].
        specialize (Hle x Hx). lia.
      * intros j Hj. apply in_or_app.
        destruct (Z.eq_dec j 0) as [-> | Hj0].
        -- right. left. lia.
        -- left. replace (c - j) with (p - (j - 1)) by lia. apply Hrun. lia.
      * intros Hx. apply in_app_or in Hx. destruct Hx as [Hx | [Hx | []]]; [| lia].
        apply Hmax. replace (p - r) with (c - (r + 1)) by lia. exact Hx.
    + apply IH; try assumption; try lia.
      * intros x Hx. apply in_app_or in Hx. destruct Hx as [Hx | [<- | []]]; [| lia].
        specialize (Hle x Hx). lia.
      * intros j Hj. replace j with 0 by lia. apply in_or_app. right. left. lia.
      * intros Hx. apply in_app_or in Hx. destruct Hx as [Hx | [Hx | []]]; [| lia].
        specialize (Hle _ Hx). lia.
Qed.

Lemma current_streak_run (logs : list HabitLog) (days : list Z) :
  map date logs = whole_days days ->
  days <> [] ->
  Sorted Z.lt days ->
  Forall valid_day days ->
  maximal_run_ending_at days (List.last days 0) (fst (streaks logs)).
Proof.
  intros Hd Hne Hs Hv. rewrite streaks_refines, Hd.
  destruct days as [| p rest]; [congruence |].
  cbn [whole_days map streaks_rec]. fold (whole_days rest).
  apply (walk_pairs_run rest [p] p 1 0 Hs Hv).
  - intros x [<- | []]. lia.
  - lia.
  - intros j Hj. replace j with 0 by lia. left. lia.
  - intros [Hx | []]. lia.
Qed.


Lemma maximal_run_unique (days : list Z) (last k1 k2 : Z) :
  maximal_run_ending_at days last k1 ->
  maximal_run_ending_at days last k2 -> k1 = k2.
Proof.
  intros (H1 & R1 & M1) (H2 & R2 & M2).
  destruct (Z.lt_trichotomy k1 k2) as [H | [H | H]]; [exfalso | exact H | exfalso].
  - apply M1, R2. lia.
  - apply M2, R1. lia.
Qed.

(** *** The completion rate *)

Lemma completionRateOf_mono (len len' days : Z) :
  len <= len' -> completionRateOf len days <= completionRateOf len' days.
Proof.
  intros H. unfold completionRateOf.
  destruct (Z.ltb_spec 0 days) as [Hd | Hd]; [| lia].
  apply Math_round_mono. unfold js_mul, js_div.
  apply round64_mono.
  apply Qmult_le_compat_r; [| discriminate].
  apply round64_mono.
  apply Qmult_le_compat_r.
  - rewrite <- Zle_Qle. exact H.
  - apply Qlt_le_weak, Qinv_lt_0_compat. apply inject_Z_pos. exact Hd.
Qed.

Lemma totalDays_eligibleDays (today0 start0 : Z) :
  today0 - start0 < 2 ^ prec ->
  totalDays today0 start0 = eligibleDays today0 start0.
Proof.
  intros Hb. unfold totalDays, eligibleDays.
  destruct (Z.leb_spec 0 (today0 - start0)) as [Hd | Hd].
  - rewrite Math_floor_js_div by (unfold MS_PER_DAY; lia).
    assert (0 <= (today0 - start0) / MS_PER_DAY) by (apply Z.div_pos; unfold MS_PER_DAY; lia).
    lia.
  - assert ((today0 - start0) / MS_PER_DAY < 0)
      by (apply Z.div_lt_upper_bound; unfold MS_PER_DAY; lia).
    lia.
Qed.

Lemma quotient_bounds (t e : Z) :
  0 < e ->
  let k := (200 * t + e) / (2 * e) in
  (2 * inject_Z e * inject_Z k <= 200 * inject_Z t + inject_Z e)%Q /\
  (200 * inject_Z t + inject_Z e < 2 * inject_Z e * (inject_Z k + 1))%Q /\
  ((200 * t + e) mod (2 * e) <> 0 ->
   (2 * inject_Z e * inject_Z k + 1 <= 200 * inject_Z t + inject_Z e)%Q /\
   (200 * inject_Z t + inject_Z e + 1 <= 2 * inject_Z e * (inject_Z k + 1))%Q).
Proof.
  intros He k.
  pose proof (Z.mul_div_le (200 * t + e) (2 * e) ltac:(lia)) as H1.
  pose proof (Z.mul_succ_div_gt (200 * t + e) (2 * e) ltac:(lia)) as H2.
  pose proof (Z.div_mod (200 * t + e) (2 * e) ltac:(lia)) as H3.
  fold k in H1, H2, H3.
  change 200%Q with (inject_Z 200). change 2%Q with (inject_Z 2).
  change 1%Q with (inject_Z 1).
  rewrite <- !inject_Z_mult, <- !inject_Z_plus, <- !inject_Z_mult.
  rewrite <- !Zle_Qle, <- Zlt_Qlt.
  repeat split; try lia.
Qed.

Lemma completionRate_spec_quotient (t e : Z) :
  0 <= t -> 0 < e -> completionRate_spec t e = (200 * t + e) / (2 * e).
Proof.
  intros Ht He. unfold completionRate_spec, round_half_away.
  destruct (Z.ltb_spec 0 e) as [_ | ?]; [| lia].
  pose proof (inject_Z_pos e He) as HE.
  assert (HT : (0 <= inject_Z (100 * t))%Q) by (rewrite <- (Zle_Qle 0); lia).
  set (v := (inject_Z (100 * t) / inject_Z e)%Q).
  assert (Hv : (0 <= v)%Q) by (unfold v; apply Qle_shift_div_l; [exact HE | lra]).
  assert (HvE : (v * inject_Z e == 100 * inject_Z t)%Q).
  { unfold v. rewrite inject_Z_mult. change (inject_Z 100) with 100%Q. field. lra. }
  destruct (Qle_bool 0 v) eqn:Eb; [| rewrite <- Qle_bool_iff in Hv; congruence].
  destruct (quotient_bounds t e He) as (K1 & K2 & _). cbv zeta in K1, K2.
  apply (Math_round_scaled v (inject_Z e)); [exact HE | lra | lra].
Qed.

(** Off the ties the code computes the percentage of the specification. *)
Lemma completionRateOf_off_ties (t e : Z) :
  0 <= t -> 600 * t < 2 ^ prec -> 0 < e ->
  (200 * t + e) mod (2 * e) <> 0 ->
  completionRateOf t e = completionRate_spec t e.
Proof.
  intros Ht Hb He Htie. rewrite completionRate_spec_quotient by assumption.
  unfold completionRateOf. destruct (Z.ltb_spec 0 e) as [_ | ?]; [| lia].
  destruct (percent_error t e Ht He) as [L U]. cbv zeta in L, U.
  set (r := js_mul (js_div (inject_Z t) (inject_Z e)) 100) in *.
  pose proof (inject_Z_pos e He) as HE.
  pose proof (eps_small (600 * t) ltac:(lia)) as Hsmall.
  rewrite inject_Z_mult in Hsmall. change (inject_Z 600) with 600%Q in Hsmall.
  destruct (quotient_bounds t e He) as (_ & _ & K). cbv zeta in K.
  destruct (K Htie) as [K1 K2].
  apply (Math_round_scaled r (inject_Z e)); [exact HE | lra | lra].
Qed.

(** *** The ordered query *)

Lemma insert_by_date_perm (r : HabitLog) (l : list HabitLog) :
  Permutation (insert_by_date r l) (r :: l).
Proof.
  induction l as [| r' l IH]; simpl; [reflexivity |].
  destruct (date r <=? date r'); [reflexivity |].
  rewrite IH. apply perm_swap.
Qed.

Lemma sort_by_date_perm (l : list HabitLog) : Permutation (sort_by_date l) l.
Proof.
  induction l as [| r l IH]; simpl; [reflexivity |].
  rewrite insert_by_date_perm. constructor. exact IH.
Qed.

Lemma insert_by_date_sorted (r : HabitLog) (l : list HabitLog) :
  StronglySorted by_date l -> StronglySorted by_date (insert_by_date r l).
Proof.
  induction 1 as [| r' l Hs IH Hall]; simpl.
  - repeat constructor.
  - destruct (Z.leb_spec (date r) (date r')) as [Hle | Hgt].
    + constructor; [constructor; assumption |].
      constructor; [exact Hle |].
      eapply Forall_impl; [exact Hall |]. unfold by_date. intros; lia.
    + constructor; [exact IH |].
      eapply Permutation_Forall; [symmetry; apply insert_by_date_perm |].
      constructor; [unfold by_date; lia | exact Hall].
Qed.

Lemma sort_by_date_sorted (l : list HabitLog) : StronglySorted by_date (sort_by_date l).
Proof.
  induction l as [| r l IH]; simpl; [constructor | apply insert_by_date_sorted, IH].
Qed.

Lemma same_date_same_row (l : list HabitLog) (a b : HabitLog) :
  List.NoDup (map date l) -> In a l -> In b l -> date a = date b -> a = b.
Proof.
  induction l as [| r l IH]; simpl; intros Hnd Ha Hb E; [contradiction |].
  apply List.NoDup_cons_iff in Hnd. destruct Hnd as [Hnotin Hnd].
  destruct Ha as [-> | Ha], Hb as [-> | Hb]; auto.
  - exfalso. apply Hnotin. rewrite E. apply in_map. exact Hb.
  - exfalso. apply Hnotin. rewrite <- E. apply in_map. exact Ha.
Qed.

Lemma sorted_perm_unique (l1 : list HabitLog) :
  forall l2,
    StronglySorted by_date l1 -> StronglySorted by_date l2 ->
    Permutation l1 l2 -> List.NoDup (map date l1) -> l1 = l2.
Proof.
  induction l1 as [| a l1 IH]; intros l2 S1 S2 P Hnd.
  - apply Permutation_nil in P. congruence.
  - destruct l2 as [| b l2].
    { symmetry in P. apply Permutation_nil in P. discriminate. }
    apply StronglySorted_inv in S1. destruct S1 as [S1 A1].
    apply StronglySorted_inv in S2. destruct S2 as [S2 A2].
    assert (Hab : a = b).
    { assert (Ia : In a (b :: l2)) by (eapply Permutation_in; [exact P | left; reflexivity]).
      assert (Ib : In b (a :: l1))
        by (eapply Permutation_in; [symmetry; exact P | left; reflexivity]).
      apply (same_date_same_row (a :: l1)); [exact Hnd | left; reflexivity | exact Ib |].
      rewrite List.Forall_forall in A1, A2. unfold by_date in *.
      destruct Ia as [-> | Ia]; [reflexivity |].
      destruct Ib as [-> | Ib]; [reflexivity |].
      specialize (A1 _ Ib). specialize (A2 _ Ia). lia. }
    subst b. f_equal. apply IH; try assumption.
    + eapply Permutation_cons_inv. exact P.
    + simpl in Hnd. apply List.NoDup_cons_iff in Hnd. tauto.
Qed.

Lemma filter_perm (f : HabitLog -> bool) (l l' : list HabitLog) :
  Permutation l l' -> Permutation (List.filter f l) (List.filter f l').
Proof.
  induction 1 as [| x l l' _ IH | x y l | l l' l'' _ IH1 _ IH2]; simpl.
  - constructor.
  - destruct (f x); [constructor |]; exact IH.
  - destruct (f x), (f y); try reflexivity. apply perm_swap.
  - etransitivity; eassumption.
Qed.

Lemma findMany_perm (table table' : list HabitLog) (id : Z) :
  Permutation table table' ->
  List.NoDup (map date (completed_logs table id)) ->
  findMany table id = findMany table' id.
Proof.
  intros P Hnd. unfold findMany. fold (completed_logs table id) (completed_logs table' id).
  assert (P' : Permutation (completed_logs table id) (completed_logs table' id))
    by (apply filter_perm, P).
  apply sorted_perm_unique; try apply sort_by_date_sorted.
  - rewrite !sort_by_date_perm. exact P'.
  - eapply Permutation_NoDup; [| exact Hnd].
    apply Permutation_map. symmetry. apply sort_by_date_perm.
Qed.

(** *** The boundary cases of the specification *)

Example streaks_two_consecutive_days :
  streaks (map on_day [10; 11]) = (2, 2).
Proof. vm_compute. reflexivity. Qed.

Example streaks_across_a_23_hour_day :
  streaks [ {| log_id := 1; habitId := 1; date := 0; completed := true |};
            {| log_id := 2; habitId := 1; date := 23 * 3600000; completed := true |} ]
  = (2, 2).
Proof. vm_compute. reflexivity. Qed.

Example rate_single_completion_today :
  totalDays (5 * MS_PER_DAY) (5 * MS_PER_DAY) = 1
  /\ completionRateOf 1 1 = 100
  /\ completionRateOf 0 1 = 0.
Proof. repeat split; vm_compute; reflexivity. Qed.

Example rate_future_start :
  totalDays (5 * MS_PER_DAY) (6 * MS_PER_DAY) = 0
  /\ completionRateOf 3 0 = 0.
Proof. split; reflexivity. Qed.

Example rate_is_not_capped :
  completionRateOf 3 2 = 150.
Proof. vm_compute. reflexivity. Qed.

Example rate_ties :
  completionRateOf 1 8 = 13 /\ completionRateOf 1 200 = 1
  /\ completionRateOf 29 200 = 14 /\ completionRateOf 57 200 = 28.
Proof. repeat split; vm_compute; reflexivity. Qed.

Lemma length_findMany_cons (table : list HabitLog) (r : HabitLog) (id : Z) :
  habitId r = id -> completed r = true ->
  length (findMany (r :: table) id) = S (length (findMany table id)).
Proof.
  intros Hid Hc. unfold findMany. cbn [List.filter].
  rewrite Hid, Z.eqb_refl, Hc. cbn [andb].
  rewrite !(Permutation_length (sort_by_date_perm _)). reflexivity.
Qed.

End ServerFacts.

(* ===================================================================== *)
(** ** The client *)
(* ===================================================================== *)

Module FrontendFacts.

Import Frontend Spec.

Section Client.
Context `{DateAPI}.

(** *** The weekday histogram *)

Lemma weekday_count_cons (s : string) (l : list string) (i : Z) :
  weekday_count (s :: l) i = tally i s + weekday_count l i.
Proof.
  unfold weekday_count, tally. simpl. destruct (on_weekday i s); simpl length; lia.
Qed.

Lemma count_log_tally (c0 c1 c2 c3 c4 c5 c6 : Z) (s : string) :
  count_log [c0; c1; c2; c3; c4; c5; c6] s
  = [c0 + tally 0 s; c1 + tally 1 s; c2 + tally 2 s; c3 + tally 3 s;
     c4 + tally 4 s; c5 + tally 5 s; c6 + tally 6 s].
Proof.
  unfold count_log, tally, on_weekday.
  destruct (parseDate s) as [d |]; [| cbn; repeat f_equal; lia].
  assert (Hb : Z.abs (Z.rem (getDay d + 6) 7) < Z.abs 7) by (apply Z.rem_bound_abs; lia).
  set (idx := Z.rem (getDay d + 6) 7) in *.
  unfold incr. destruct (Z.leb_spec 0 idx) as [Hpos | Hneg].
  - assert (Hc : idx = 0 \/ idx = 1 \/ idx = 2 \/ idx = 3 \/ idx = 4 \/ idx = 5 \/ idx = 6) by lia.
    destruct Hc as [-> | [-> | [-> | [-> | [-> | [-> | ->]]]]]]; simpl; repeat f_equal; lia.
  - repeat f_equal;
      match goal with |- context [idx =? ?k] => destruct (Z.eqb_spec idx k) end; lia.
Qed.

Lemma weekly_counts_from (l : list string) :
  forall c0 c1 c2 c3 c4 c5 c6 : Z,
    fold_left count_log l [c0; c1; c2; c3; c4; c5; c6]
    = [c0 + weekday_count l 0; c1 + weekday_count l 1; c2 + weekday_count l 2;
       c3 + weekday_count l 3; c4 + weekday_count l 4; c5 + weekday_count l 5;
       c6 + weekday_count l 6].
Proof.
  induction l as [| s l IH]; intros; cbn [fold_left].
  - unfold weekday_count. cbn. by_bucket lia.
  - rewrite count_log_tally, IH, !weekday_count_cons. by_bucket lia.
Qed.

Lemma weekly_counts_spec (l : list string) :
  weekly_counts l
  = [weekday_count l 0; weekday_count l 1; weekday_count l 2; weekday_count l 3;
     weekday_count l 4; weekday_count l 5; weekday_count l 6].
Proof. unfold weekly_counts. rewrite weekly_counts_from. reflexivity. Qed.

Lemma weeklyData_nonempty (a : HabitAnalytics) (l : list string) :
  l <> [] ->
  weeklyData (Some a) l
  = [ {| day := "Mon"; value := weekday_count l 0 |};
      {| day := "Tue"; value := weekday_count l 1 |};
      {| day := "Wed"; value := weekday_count l 2 |};
      {| day := "Thu"; value := weekday_count l 3 |};
      {| day := "Fri"; value := weekday_count l 4 |};
      {| day := "Sat"; value := weekday_count l 5 |};
      {| day := "Sun"; value := weekday_count l 6 |} ].
Proof.
  intros Hne. unfold weeklyData.
  destruct l as [| s l]; [congruence |].
  cbn [length Nat.ltb Nat.leb]. rewrite weekly_counts_spec. reflexivity.
Qed.


(** *** The trailing 30-day series *)

Lemma elem_of_filter_Boolean (x : string) (l : list (option string)) :
  x ∈ filter_Boolean l <-> In (Some x) l /\ x <> EmptyString.
Proof.
  unfold filter_Boolean. rewrite list_elem_of_omap. split.
  - intros (o & Ho & E). destruct o as [s' |]; [| discriminate].
    destruct (String.eqb_spec s' EmptyString); [discriminate |].
    injection E as <-. rewrite list_elem_of_In in Ho. auto.
  - intros [Hin Hne]. exists (Some x). rewrite list_elem_of_In. split; [exact Hin |].
    destruct (String.eqb_spec x EmptyString); [contradiction | reflexivity].
Qed.

Lemma elem_of_completedSet (logs : list string) (d : Z) :
  toDateString d ∈ completedSet logs <-> completed_on logs d.
Proof.
  unfold completedSet, completed_on.
  rewrite elem_of_list_to_set, elem_of_filter_Boolean, in_map_iff. split.
  - intros [(s & E & Hs) Hne]. destruct (parseDate s) as [t |] eqn:Hp; [| discriminate].
    injection E as E. exists s, t. rewrite E. auto.
  - intros (s & t & Hs & Hp & E & Hne). split; [| rewrite <- E; exact Hne].
    exists s. rewrite Hp, E. auto.
Qed.

Lemma fold_left_push {A B} (f : B -> A) (l : list B) (acc : list A) :
  fold_left (fun data i => data ++ [f i]) l acc = acc ++ map f l.
Proof.
  revert acc. induction l as [| b l IH]; intros acc; simpl.
  - rewrite app_nil_r. reflexivity.
  - rewrite IH, <- app_assoc. reflexivity.
Qed.

Lemma monthlyData_nonempty (a : HabitAnalytics) (logs : list string) (now : Z) :
  logs <> [] ->
  monthlyData (Some a) logs now
  = map (month_point (setHours0 now) (completedSet logs)) (down_from 29).
Proof.
  intros Hne. unfold monthlyData. destruct logs as [| s l]; [congruence |].
  cbn [length Nat.ltb Nat.leb].
  exact (fold_left_push (month_point (setHours0 now) (completedSet (s :: l))) (down_from 29) []).
Qed.

Lemma down_from_lookup (hi i : Z) :
  0 <= i <= hi -> down_from hi !! Z.to_nat (hi - i) = Some i.
Proof.
  intros Hi. unfold down_from.
  rewrite reverse_lookup by (rewrite length_seqZ; lia).
  rewrite length_seqZ.
  replace (Z.to_nat (hi + 1) - S (Z.to_nat (hi - i)))%nat with (Z.to_nat i) by lia.
  rewrite lookup_seqZ_lt by lia. f_equal. lia.
Qed.

Lemma length_down_from (hi : Z) : length (down_from hi) = Z.to_nat (hi + 1).
Proof. unfold down_from. rewrite length_reverse, length_seqZ. reflexivity. Qed.

Lemma monthlyData_point (a : HabitAnalytics) (logs : list string) (now i : Z) :
  logs <> [] -> 0 <= i <= 29 ->
  monthlyData (Some a) logs now !! Z.to_nat (29 - i)
  = Some (month_point (setHours0 now) (completedSet logs) i).
Proof.
  intros Hne Hi. rewrite monthlyData_nonempty by exact Hne.
  rewrite list_lookup_fmap, down_from_lookup by exact Hi. reflexivity.
Qed.

(** *** The calendar grid *)

Lemma completion_key_ok (s : string) : completion_key s = Ok (iso_key s).
Proof.
  unfold completion_key, iso_key. destruct (parseDate s); reflexivity.
Qed.

Lemma mapM_completion_key (logs : list string) :
  mapM completion_key logs = Ok (map iso_key logs).
Proof.
  induction logs as [| s l IH]; [reflexivity |].
  cbn [mapM map]. rewrite completion_key_ok, IH. reflexivity.
Qed.

Lemma foldM_day_step (year month today : Z) (habitStart : JSDate)
    (set : gset string) (days : list Z) (cells : list Cell) :
  foldM (day_step year month today habitStart set) cells days
  = Ok (cells ++ map (day_cell year month today habitStart set) days).
Proof.
  revert cells. induction days as [| day days IH]; intros cells; cbn [foldM map].
  - rewrite app_nil_r. reflexivity.
  - unfold day_step at 1. cbn. rewrite IH, <- app_assoc. reflexivity.
Qed.

Lemma map_const_replicate {A B} (b : B) (l : list A) :
  map (fun _ => b) l = replicate (length l) b.
Proof. induction l as [| x l IH]; simpl; [reflexivity | f_equal; exact IH]. Qed.

Lemma calendarCells_closed (a : HabitAnalytics) (h : Habit) (logs : list string) (now : Z) :
  let today := setHours0 now in
  let month := getMonth today in
  let year := getFullYear today in
  let offset := Z.rem (getDay (makeDate year month 1) + 6) 7 in
  let daysInMonth := getDate (makeDate year (month + 1) 0) in
  calendarCells (Some a) (Some h) logs now
  = Ok (replicate (Z.to_nat offset) empty_cell
        ++ map (day_cell year month today (setHours0 <$> parseDate (startDate h))
                  (list_to_set (map iso_key logs)))
               (seqZ 1 daysInMonth)).
Proof.
  cbv zeta. unfold calendarCells. rewrite mapM_completion_key. cbn [mbind result_bind].
  rewrite foldM_day_step. f_equal. f_equal.
  - rewrite (fold_left_push (fun _ : Z => empty_cell)). cbn [app].
    rewrite map_const_replicate. unfold up_to. rewrite length_seqZ. f_equal. lia.
  - unfold up_to. f_equal. f_equal. lia.
Qed.

Lemma weeklyData_empty (analytics : option HabitAnalytics) :
  weeklyData analytics [] = [].
Proof. destruct analytics; reflexivity. Qed.

Lemma monthlyData_empty (analytics : option HabitAnalytics) (now : Z) :
  monthlyData analytics [] now = [].
Proof. destruct analytics; reflexivity. Qed.

Lemma length_monthlyData (a : HabitAnalytics) (logs : list string) (now : Z) :
  logs <> [] -> length (monthlyData (Some a) logs now) = 30%nat.
Proof.
  intros Hne. rewrite monthlyData_nonempty by exact Hne.
  rewrite length_map, length_down_from. reflexivity.
Qed.

Lemma length_weeklyData (a : HabitAnalytics) (logs : list string) :
  logs <> [] -> length (weeklyData (Some a) logs) = 7%nat.
Proof. intros Hne. rewrite weeklyData_nonempty by exact Hne. reflexivity. Qed.

Lemma month_point_value (today : Z) (logs : list string) (i : Z) :
  let v := pvalue (month_point today (completedSet logs) i) in
  (v = 1 /\ completed_on logs (trailing_day today i))
  \/ (v = 0 /\ ~ completed_on logs (trailing_day today i)).
Proof.
  cbv zeta. unfold month_point. cbn [pvalue].
  destruct (bool_decide_reflect
              (toDateString (trailing_day today i) ∈ completedSet logs)) as [Hin | Hout].
  - left. split; [reflexivity |]. apply elem_of_completedSet. exact Hin.
  - right. split; [reflexivity |]. rewrite <- elem_of_completedSet. exact Hout.
Qed.

(** *** Entries that do not parse *)

Lemma on_weekday_parses (i : Z) (s : string) : on_weekday i s = true -> parses s = true.
Proof. unfold on_weekday, parses. destruct (parseDate s); [reflexivity | discriminate]. Qed.

Lemma weekday_count_valid (logs : list string) (i : Z) :
  weekday_count logs i = weekday_count (List.filter parses logs) i.
Proof.
  unfold weekday_count. f_equal. f_equal.
  induction logs as [| s l IH]; [reflexivity |]. cbn [List.filter].
  destruct (on_weekday i s) eqn:E.
  - rewrite (on_weekday_parses i s E). cbn [List.filter]. rewrite E. f_equal. exact IH.
  - destruct (parses s); cbn [List.filter]; rewrite ?E; exact IH.
Qed.

Lemma weekly_counts_valid (logs : list string) :
  weekly_counts logs = weekly_counts (List.filter parses logs).
Proof.
  rewrite !weekly_counts_spec. by_bucket ltac:(apply weekday_count_valid).
Qed.

Lemma filter_Boolean_cons (o : option string) (l : list (option string)) :
  filter_Boolean (o :: l)
  = match o with
    | Some s => if String.eqb s EmptyString then filter_Boolean l else s :: filter_Boolean l
    | None => filter_Boolean l
    end.
Proof.
  unfold filter_Boolean. destruct o as [s |]; [| reflexivity].
  simpl. destruct (String.eqb s EmptyString); reflexivity.
Qed.

Lemma completedSet_valid (logs : list string) :
  completedSet logs = completedSet (List.filter parses logs).
Proof.
  unfold completedSet. f_equal.
  induction logs as [| s l IH]; [reflexivity |].
  cbn [List.filter map]. rewrite filter_Boolean_cons. unfold parses at 1.
  destruct (parseDate s) as [t |] eqn:E; [| exact IH].
  cbn [map]. rewrite filter_Boolean_cons, E, IH. reflexivity.
Qed.

Lemma filter_parses_nonempty (logs : list string) :
  List.filter parses logs <> [] -> logs <> [].
Proof. intros Hv ->. apply Hv. reflexivity. Qed.

Lemma weeklyData_valid (analytics : option HabitAnalytics) (logs : list string) :
  List.filter parses logs <> [] ->
  weeklyData analytics logs = weeklyData analytics (List.filter parses logs).
Proof.
  intros Hv. destruct analytics as [a |]; [| reflexivity].
  rewrite (weeklyData_nonempty a logs) by (apply filter_parses_nonempty; exact Hv).
  rewrite (weeklyData_nonempty a (List.filter parses logs)) by exact Hv.
  rewrite <- !weekday_count_valid. reflexivity.
Qed.

Lemma monthlyData_valid (analytics : option HabitAnalytics) (logs : list string) (now : Z) :
  List.filter parses logs <> [] ->
  monthlyData analytics logs now = monthlyData analytics (List.filter parses logs) now.
Proof.
  intros Hv. destruct analytics as [a |]; [| reflexivity].
  rewrite (monthlyData_nonempty a logs) by (apply filter_parses_nonempty; exact Hv).
  rewrite (monthlyData_nonempty a (List.filter parses logs)) by exact Hv.
  rewrite <- completedSet_valid. reflexivity.
Qed.

Lemma calendarCells_returns (analytics : option HabitAnalytics)
    (selectedHabit : option Habit) (logs : list string) (now : Z) :
  exists cells, calendarCells analytics selectedHabit logs now = Ok cells.
Proof.
  destruct analytics as [a |], selectedHabit as [h |];
    try (eexists; reflexivity).
  eexists. apply calendarCells_closed.
Qed.

End Client.

(** On a platform with a fixed offset from UTC, [setDate] with the day of
    the month lowered by [i] is [i] days earlier. *)
Lemma fixed_offset_trailing_day (off today i : Z) :
  @trailing_day (Platform.fixed_offset off) today i = today - i * MS_PER_DAY.
Proof.
  unfold trailing_day. cbn [setDate getDate Platform.fixed_offset].
  unfold Platform.withDayOfMonth. lia.
Qed.

End FrontendFacts.

(* ===================================================================== *)
(** ** The claims *)
(* ===================================================================== *)

(** The binary64 model agrees with the reference arithmetic of the
    Standard Library ([SpecFloat], precision 53, maximal exponent 1024) on
    every percentage [t / e * 100] with [0 <= t <= 48] and [1 <= e <= 48],
    and on sample day quotients. *)
Lemma round64_agrees_with_SpecFloat :
  Spec.percent_grid 48 = true
  /\ forallb (fun n => same_value (js_div (inject_Z n) (inject_Z MS_PER_DAY))
                                  (Spec.sf_days n))
       [0; 1; 43199999; 43200000; 86399999; 86400000; 129600000; 172800001;
        1707955200123; -5; -43200000; -86400000] = true.
Proof. split; vm_compute; reflexivity. Qed.

(** C1.  On date-only completion dates the streak block computes
    [(currentStreak, longestStreak)] as the walk over adjacent pairs that
    the specification describes: the running counter starts at 1, a pair
    whose whole-day difference is exactly 1 extends the run, any other
    pair folds the run into the longest streak and restarts it at 1, and
    the last run is folded in once more at the end.  The dates need not
    even be sorted.  No log gives [(0, 0)], one log gives [(1, 1)]. *)
Theorem C1_streaks_walk_adjacent_pairs :
  forall (logs : list Server.HabitLog) (days : list Z),
    map Server.date logs = Spec.whole_days days ->
    Forall Spec.valid_day days ->
    Server.streaks logs = Spec.streak_calculator days
    /\ Server.streaks [] = (0, 0)
    /\ (forall r : Server.HabitLog, Server.streaks [r] = (1, 1)).
Proof.
  intros logs days Hd Hv. split; [apply ServerFacts.streaks_streak_calculator; assumption |].
  split; [reflexivity | intros r; reflexivity].
Qed.

(** Two consecutive days are a run of two; the days 1, 2, 3, 5, 6, 8 end
    in a run of one after runs of three and two. *)
Lemma C1_witness :
  Server.streaks (map Spec.on_day [10; 11]) = (2, 2)
  /\ Server.streaks (map Spec.on_day [1; 2; 3; 5; 6; 8]) = (1, 3).
Proof.
  split.
  - rewrite (proj1 (C1_streaks_walk_adjacent_pairs (map Spec.on_day [10; 11]) [10; 11]
                      eq_refl ltac:(repeat constructor; unfold Z.le; simpl; discriminate))).
    reflexivity.
  - rewrite (proj1 (C1_streaks_walk_adjacent_pairs
                      (map Spec.on_day [1; 2; 3; 5; 6; 8]) [1; 2; 3; 5; 6; 8]
                      eq_refl ltac:(repeat constructor; unfold Z.le; simpl; discriminate))).
    reflexivity.
Defined.

(** C2.  On a non-empty, strictly ascending sequence of date-only
    completion dates, [currentStreak] is the length of the maximal run of
    consecutive calendar days that ends at the last completion date, and
    no other number is; the current date plays no part.  Completions on
    days 1, 2, 3, 5 give [currentStreak = 1] and [longestStreak = 3]. *)
Theorem C2_current_streak_is_run_ending_at_last_date :
  forall (logs : list Server.HabitLog) (days : list Z),
    map Server.date logs = Spec.whole_days days ->
    days <> [] ->
    Sorted Z.lt days ->
    Forall Spec.valid_day days ->
    Spec.maximal_run_ending_at days (List.last days 0) (fst (Server.streaks logs))
    /\ (forall k, Spec.maximal_run_ending_at days (List.last days 0) k ->
                  k = fst (Server.streaks logs))
    /\ Server.streaks (map Spec.on_day [1; 2; 3; 5]) = (1, 3).
Proof.
  intros logs days Hd Hne Hs Hv.
  pose proof (ServerFacts.current_streak_run logs days Hd Hne Hs Hv) as Hrun.
  split; [exact Hrun |]. split; [| vm_compute; reflexivity].
  intros k Hk. exact (ServerFacts.maximal_run_unique _ _ _ _ Hk Hrun).
Qed.

Lemma C2_witness :
  Spec.maximal_run_ending_at [1; 2; 3; 5] 5
    (fst (Server.streaks (map Spec.on_day [1; 2; 3; 5]))).
Proof.
  apply (C2_current_streak_is_run_ending_at_last_date
           (map Spec.on_day [1; 2; 3; 5]) [1; 2; 3; 5]).
  - reflexivity.
  - discriminate.
  - repeat constructor.
  - repeat constructor; unfold Z.le; simpl; discriminate.
Defined.

(** C3, at the failing input.  A habit started 39 days before today has
    40 eligible days; with 23 completions the exact percentage is 57.5,
    which the specification rounds to 58.  The handler divides first:
    [23 / 40] is the binary64 value just below 0.575, its product with 100
    is 57.49999999999999, and [Math.round] returns 57. *)
Theorem C3_rate_of_23_completions_in_40_days :
  Server.totalDays (@setHours0 Platform.UTC Spec.rate_now)
                   (@setHours0 Platform.UTC (Server.startDate Spec.rate_habit)) = 40
  /\ Z.of_nat (length Spec.rate_logs) = 23
  /\ Server.completionRate
       (@Server.stats_of Platform.UTC Spec.rate_logs Spec.rate_habit Spec.rate_now) = 57
  /\ Server.completionRateOf 23 40 = 57
  /\ Spec.completionRate_spec 23 40 = 58
  /\ same_value (Spec.js_percent 23 40) (Spec.sf_percent 23 40) = true.
Proof. repeat split; vm_compute; reflexivity. Qed.

(** C4, at two failing inputs.  February 2024 starts on a Thursday and
    has 29 days, so the grid has 3 leading cells and day [n] is at index
    [n + 2]; the habit starts on 3 February, today is the 15th (the 14th
    west of UTC) and the one log is of 5 February, which is its date in
    UTC and in India alike.  On calendar days the specification gives day
    5 [completed] and day 6 [missed], and day 2, before the start date,
    [not_tracked].  The code compares the UTC date of the local midnight
    of a day with the UTC date of a log, and the local midnight of a day
    with the local midnight of the start instant.  With the client on
    UTC+05:30 it shows day 5 as [missed] and day 6 as [completed]; with
    the client on UTC-05:00 it shows day 2 as [missed], a tracked day
    before the start date.  (With the client on UTC the grid is the one of
    the specification.) *)
Theorem C4_calendar_grid_is_off_by_a_day_away_from_UTC :
  let logs := ["2024-02-05T00:00:00.000Z"%string] in
  (* the inputs as calendar days *)
  Spec.calendar_date "2024-02-03" = Some 19756
  /\ Spec.calendar_date "2024-02-05T00:00:00.000Z" = Some 19758
  /\ @parseDate Platform.IST "2024-02-05T00:00:00.000Z" = Some (19758 * MS_PER_DAY)
  /\ Platform.localDay 19800000 (19758 * MS_PER_DAY) = 19758
  (* client on UTC+05:30 *)
  /\ (exists cells grid,
        @Frontend.calendarCells Platform.IST (Some Spec.sample_analytics)
          (Some Spec.sample_habit) logs Spec.sample_now = Ok cells
        /\ Spec.spec_grid 19800000 "2024-02-03" logs Spec.sample_now = Some grid
        /\ length cells = 32%nat /\ length grid = 32%nat
        /\ cells !! 7%nat = Some {| Frontend.cell_label := "5";
                                    Frontend.status := Frontend.missed |}
        /\ grid !! 7%nat = Some Frontend.completed
        /\ cells !! 8%nat = Some {| Frontend.cell_label := "6";
                                    Frontend.status := Frontend.completed |}
        /\ grid !! 8%nat = Some Frontend.missed)
  (* client on UTC-05:00 *)
  /\ (exists cells grid,
        @Frontend.calendarCells Platform.EST (Some Spec.sample_analytics)
          (Some Spec.sample_habit) logs Spec.sample_now = Ok cells
        /\ Spec.spec_grid (-18000000) "2024-02-03" logs Spec.sample_now = Some grid
        /\ length cells = 32%nat /\ length grid = 32%nat
        /\ cells !! 4%nat = Some {| Frontend.cell_label := "2";
                                    Frontend.status := Frontend.missed |}
        /\ grid !! 4%nat = Some Frontend.not_tracked)
  (* client on UTC *)
  /\ (exists cells grid,
        @Frontend.calendarCells Platform.UTC (Some Spec.sample_analytics)
          (Some Spec.sample_habit) logs Spec.sample_now = Ok cells
        /\ Spec.spec_grid 0 "2024-02-03" logs Spec.sample_now = Some grid
        /\ map Frontend.status cells = grid).
Proof.
  cbv zeta. split; [reflexivity |]. split; [reflexivity |].
  split; [reflexivity |]. split; [reflexivity |].
  split; [| split];
    (eexists; eexists; split; [vm_compute; reflexivity |];
     split; [vm_compute; reflexivity |]; repeat split).
Qed.

(** C5 as stated fails: with no logs the trailing series is the empty
    list, not 30 points. *)
Lemma C5_empty_log_counterexample :
  @Frontend.monthlyData Platform.UTC (Some Spec.sample_analytics) [] Spec.sample_now = []
  /\ length (@Frontend.monthlyData Platform.UTC (Some Spec.sample_analytics) []
               Spec.sample_now) <> 30%nat.
Proof. split; [reflexivity | discriminate]. Qed.

(** C5, amended.  With analytics loaded and at least one log, the trailing
    series has exactly 30 points, oldest first: for [i] from 29 down to 0
    the point at position [29 - i] carries the label of the day [i] days
    before today and the value 1 when a log that parses has the date
    string of that day, 0 otherwise.  The start date of the habit plays no
    part. *)
Theorem C5_trailing_window_of_nonempty_logs :
  forall (D : DateAPI) (a : Frontend.HabitAnalytics)
         (analyticsLogs : list string) (now : Z),
    analyticsLogs <> [] ->
    let today := setHours0 now in
    let series := Frontend.monthlyData (Some a) analyticsLogs now in
    length series = 30%nat
    /\ forall i : Z, 0 <= i <= 29 ->
         let d := Spec.trailing_day today i in
         exists v : Z,
           series !! Z.to_nat (29 - i)
           = Some {| Frontend.label := toLocaleDayMonth d; Frontend.pvalue := v |}
           /\ ((v = 1 /\ Spec.completed_on analyticsLogs d)
               \/ (v = 0 /\ ~ Spec.completed_on analyticsLogs d)).
Proof.
  intros D a logs now Hne today series. split.
  - apply FrontendFacts.length_monthlyData. exact Hne.
  - intros i Hi d.
    exists (Frontend.pvalue (Spec.month_point today (Frontend.completedSet logs) i)).
    split.
    + unfold series. rewrite FrontendFacts.monthlyData_point by assumption. reflexivity.
    + apply FrontendFacts.month_point_value.
Qed.

Lemma C5_witness :
  let series := @Frontend.monthlyData Platform.UTC (Some Spec.sample_analytics)
                  Spec.sample_logs Spec.sample_now in
  length series = 30%nat
  /\ forall i : Z, 0 <= i <= 29 ->
       let d := @Spec.trailing_day Platform.UTC
                  (@setHours0 Platform.UTC Spec.sample_now) i in
       exists v : Z,
         series !! Z.to_nat (29 - i)
         = Some {| Frontend.label := @toLocaleDayMonth Platform.UTC d;
                   Frontend.pvalue := v |}
         /\ ((v = 1 /\ @Spec.completed_on Platform.UTC Spec.sample_logs d)
             \/ (v = 0 /\ ~ @Spec.completed_on Platform.UTC Spec.sample_logs d)).
Proof.
  apply (C5_trailing_window_of_nonempty_logs Platform.UTC). discriminate.
Defined.

(** C6 as stated fails: with no logs the histogram is the empty list, not
    seven counts. *)
Lemma C6_empty_log_counterexample :
  @Frontend.weeklyData Platform.UTC (Some Spec.sample_analytics) [] = []
  /\ length (@Frontend.weeklyData Platform.UTC (Some Spec.sample_analytics) []) <> 7%nat.
Proof. split; [reflexivity | discriminate]. Qed.

(** C6, amended.  With analytics loaded and at least one log, the
    histogram has seven counts, Monday first; the count of index [i] is
    the number of logs, over the whole history, that parse as a date whose
    weekday [w] (0 = Sunday) has [(w + 6) % 7 = i].  One log that parses
    adds one to exactly that bucket. *)
Theorem C6_weekday_histogram_of_nonempty_logs :
  forall (D : DateAPI) (a : Frontend.HabitAnalytics) (analyticsLogs : list string),
    analyticsLogs <> [] ->
    Frontend.weeklyData (Some a) analyticsLogs
    = [ {| Frontend.day := "Mon"; Frontend.value := Spec.weekday_count analyticsLogs 0 |};
        {| Frontend.day := "Tue"; Frontend.value := Spec.weekday_count analyticsLogs 1 |};
        {| Frontend.day := "Wed"; Frontend.value := Spec.weekday_count analyticsLogs 2 |};
        {| Frontend.day := "Thu"; Frontend.value := Spec.weekday_count analyticsLogs 3 |};
        {| Frontend.day := "Fri"; Frontend.value := Spec.weekday_count analyticsLogs 4 |};
        {| Frontend.day := "Sat"; Frontend.value := Spec.weekday_count analyticsLogs 5 |};
        {| Frontend.day := "Sun"; Frontend.value := Spec.weekday_count analyticsLogs 6 |} ]
    /\ forall (counts : list Z) (dateStr : string) (d : Z),
         parseDate dateStr = Some d ->
         0 <= getDay d <= 6 ->
         Frontend.count_log counts dateStr
         = alter (fun c => c + 1) (Z.to_nat ((getDay d + 6) mod 7)) counts.
Proof.
  intros D a logs Hne. split.
  - apply FrontendFacts.weeklyData_nonempty. exact Hne.
  - intros counts s d Hp Hd. unfold Frontend.count_log, Frontend.incr. rewrite Hp.
    rewrite Z.rem_mod_nonneg by lia.
    destruct (Z.leb_spec 0 ((getDay d + 6) mod 7)) as [_ | Hneg]; [reflexivity |].
    pose proof (Z.mod_pos_bound (getDay d + 6) 7 ltac:(lia)). lia.
Qed.

Lemma C6_witness :
  @Frontend.weeklyData Platform.UTC (Some Spec.sample_analytics) Spec.sample_logs
  = [ {| Frontend.day := "Mon"; Frontend.value := 1 |};
      {| Frontend.day := "Tue"; Frontend.value := 0 |};
      {| Frontend.day := "Wed"; Frontend.value := 0 |};
      {| Frontend.day := "Thu"; Frontend.value := 0 |};
      {| Frontend.day := "Fri"; Frontend.value := 0 |};
      {| Frontend.day := "Sat"; Frontend.value := 0 |};
      {| Frontend.day := "Sun"; Frontend.value := 0 |} ].
Proof.
  rewrite (proj1 (C6_weekday_histogram_of_nonempty_logs Platform.UTC
                    Spec.sample_analytics Spec.sample_logs ltac:(discriminate))).
  vm_compute. reflexivity.
Defined.

(** C7.  For a fixed habit and a fixed current date, one more completed
    log of the habit in the table never lowers the completion rate of the
    response. *)
Theorem C7_completion_rate_monotone :
  forall (D : DateAPI) (h : Server.Habit) (table : list Server.HabitLog)
         (r : Server.HabitLog) (now : Z),
    Server.habitId r = Server.habit_id h ->
    Server.completed r = true ->
    Spec.rate_of (Server.analytics (Some h) table (Server.habit_id h) now)
    <= Spec.rate_of (Server.analytics (Some h) (r :: table) (Server.habit_id h) now).
Proof.
  intros D h table r now Hid Hc. unfold Server.analytics, Spec.rate_of, Server.stats_of.
  rewrite (ServerFacts.length_findMany_cons table r _ Hid Hc).
  destruct (Server.streaks (Server.findMany table (Server.habit_id h))) as [c l].
  destruct (Server.streaks (Server.findMany (r :: table) (Server.habit_id h))) as [c' l'].
  cbn [Server.completionRate].
  apply ServerFacts.completionRateOf_mono. lia.
Qed.

Lemma C7_witness :
  Spec.rate_of (@Server.analytics Platform.UTC (Some Spec.rate_habit)
                  (map Spec.on_day [19723; 19725]) 1 Spec.rate_now)
  <= Spec.rate_of (@Server.analytics Platform.UTC (Some Spec.rate_habit)
                     (Spec.on_day 19724 :: map Spec.on_day [19723; 19725]) 1
                     Spec.rate_now).
Proof.
  apply (C7_completion_rate_monotone Platform.UTC Spec.rate_habit); reflexivity.
Defined.

(** C8.  The query orders the logs by date, so the whole result (the
    response of the server and the three derived charts) does not depend
    on the order in which the rows are stored, as long as the completed
    logs of the habit have distinct dates. *)
Theorem C8_engine_invariant_under_reordering :
  forall (S C : DateAPI) (habit : Server.Habit)
         (table table' : list Server.HabitLog) (now : Z),
    Permutation table table' ->
    List.NoDup (map Server.date (Spec.completed_logs table (Server.habit_id habit))) ->
    Engine.computeAnalytics S C habit table now
    = Engine.computeAnalytics S C habit table' now.
Proof.
  intros S C habit table table' now P Hnd.
  unfold Engine.computeAnalytics, Server.analytics.
  rewrite (ServerFacts.findMany_perm table table' _ P Hnd). reflexivity.
Qed.

Lemma C8_witness :
  Engine.computeAnalytics Platform.UTC Platform.IST Spec.rate_habit
    (map Spec.on_day [19727; 19723; 19725]) Spec.rate_now
  = Engine.computeAnalytics Platform.UTC Platform.IST Spec.rate_habit
    (map Spec.on_day [19723; 19727; 19725]) Spec.rate_now.
Proof.
  apply C8_engine_invariant_under_reordering.
  - apply perm_swap.
  - vm_compute. repeat constructor; simpl; intuition discriminate.
Defined.

(** C9 as stated fails: a log list with an entry that is not a date makes
    nothing fail.  The derived values are returned, and the entry is
    passed over. *)
Lemma C9_invalid_entry_counterexample :
  In "not-a-date"%string Spec.sample_logs
  /\ @parseDate Platform.UTC "not-a-date" = None
  /\ exists r : Engine.AnalyticsResult,
       @Engine.derive Platform.UTC (Some Spec.sample_analytics) (Some Spec.sample_habit)
         Spec.sample_logs Spec.sample_now = Ok r
       /\ Engine.weeklyBuckets r
          = [ {| Frontend.day := "Mon"; Frontend.value := 1 |};
              {| Frontend.day := "Tue"; Frontend.value := 0 |};
              {| Frontend.day := "Wed"; Frontend.value := 0 |};
              {| Frontend.day := "Thu"; Frontend.value := 0 |};
              {| Frontend.day := "Fri"; Frontend.value := 0 |};
              {| Frontend.day := "Sat"; Frontend.value := 0 |};
              {| Frontend.day := "Sun"; Frontend.value := 0 |} ]
       /\ length (Engine.trailingWindow r) = 30%nat.
Proof.
  split; [right; left; reflexivity |]. split; [reflexivity |].
  eexists. split; [vm_compute; reflexivity |]. split; reflexivity.
Qed.

(** C9, amended.  The derived values never throw, whatever the logs are:
    an entry that cannot be normalized to a date is passed over.  The
    weekday counts and the completion set of the trailing series are those
    of the entries that parse, and when at least one entry parses the
    histogram and the trailing series are those of the list without the
    invalid entries. *)
Theorem C9_invalid_entries_are_skipped :
  forall (D : DateAPI) (analytics : option Frontend.HabitAnalytics)
         (selectedHabit : option Frontend.Habit)
         (analyticsLogs : list string) (now : Z),
    let valid := List.filter Spec.parses analyticsLogs in
    exists r : Engine.AnalyticsResult,
      Engine.derive analytics selectedHabit analyticsLogs now = Ok r
      /\ Frontend.weekly_counts analyticsLogs = Frontend.weekly_counts valid
      /\ Frontend.completedSet analyticsLogs = Frontend.completedSet valid
      /\ (valid <> [] ->
          Engine.weeklyBuckets r = Frontend.weeklyData analytics valid
          /\ Engine.trailingWindow r = Frontend.monthlyData analytics valid now).
Proof.
  intros D analytics selected logs now valid.
  destruct (FrontendFacts.calendarCells_returns analytics selected logs now) as [cells Hc].
  unfold Engine.derive. rewrite Hc. cbn [mbind result_bind].
  eexists. split; [reflexivity |]. cbn [Engine.weeklyBuckets Engine.trailingWindow].
  split; [apply FrontendFacts.weekly_counts_valid |].
  split; [apply FrontendFacts.completedSet_valid |].
  intros Hv. split.
  - apply FrontendFacts.weeklyData_valid. exact Hv.
  - apply FrontendFacts.monthlyData_valid. exact Hv.
Qed.

(** C10.  With an empty log list the weekday histogram and the trailing
    series are both the empty list, analytics loaded or not; the seven
    buckets and the thirty points appear only for a non-empty log list. *)
Theorem C10_empty_logs_give_empty_charts :
  forall (D : DateAPI) (analytics : option Frontend.HabitAnalytics) (now : Z),
    Frontend.weeklyData analytics [] = []
    /\ Frontend.monthlyData analytics [] now = []
    /\ (forall (a : Frontend.HabitAnalytics) (analyticsLogs : list string),
          analyticsLogs <> [] ->
          length (Frontend.weeklyData (Some a) analyticsLogs) = 7%nat
          /\ length (Frontend.monthlyData (Some a) analyticsLogs now) = 30%nat).
Proof.
  intros D analytics now.
  split; [apply FrontendFacts.weeklyData_empty |].
  split; [apply FrontendFacts.monthlyData_empty |].
  intros a logs Hne. split.
  - apply FrontendFacts.length_weeklyData. exact Hne.
  - apply FrontendFacts.length_monthlyData. exact Hne.
Qed.

(* ===================================================================== *)
(** ** Further properties of the completion rate *)
(* ===================================================================== *)

(** Off the ties the handler computes the percentage of the
    specification: when [100 * total / days] is not halfway between two
    whole numbers (and [total] is below [2^53 / 600]), the completion rate
    is that percentage rounded to the nearest whole number. *)
Theorem completion_rate_agrees_off_ties :
  forall total days : Z,
    0 <= total -> 600 * total < 2 ^ 53 -> 0 < days ->
    (200 * total + days) mod (2 * days) <> 0 ->
    Server.completionRateOf total days = Spec.completionRate_spec total days.
Proof. exact ServerFacts.completionRateOf_off_ties. Qed.

Lemma completion_rate_agrees_off_ties_witness :
  Server.completionRateOf 1 3 = Spec.completionRate_spec 1 3.
Proof.
  apply completion_rate_agrees_off_ties; [lia | reflexivity | lia | discriminate].
Defined.

(** The eligible days of the handler are those of the specification: the
    whole days from the start date to today, plus one, and 0 for a start
    date in the future. *)
Theorem totalDays_is_eligibleDays :
  forall today0 start0 : Z,
    today0 - start0 < 2 ^ 53 ->
    Server.totalDays today0 start0 = Spec.eligibleDays today0 start0.
Proof. exact ServerFacts.totalDays_eligibleDays. Qed.

Lemma totalDays_is_eligibleDays_witness :
  Server.totalDays (19762 * MS_PER_DAY) (19723 * MS_PER_DAY)
  = Spec.eligibleDays (19762 * MS_PER_DAY) (19723 * MS_PER_DAY).
Proof. apply totalDays_is_eligibleDays. reflexivity. Defined.

(* ===================================================================== *)
(** ** The two frames of the calendar grid *)
(* ===================================================================== *)

(** The grid builds the key of a day from the UTC form of its local
    midnight.  With the client on UTC the completion logged for 5 February
    2024 marks the cell of day 5; with the client on UTC+05:30 the same log
    marks the cell of day 6 and leaves day 5 missed.  (February 2024 starts
    on a Thursday: three leading cells, so day [n] is at index [n + 2].) *)
Theorem calendar_key_shifts_east_of_UTC :
  (exists cells,
      @Frontend.calendarCells Platform.UTC (Some Spec.sample_analytics)
        (Some Spec.sample_habit) Spec.sample_logs Spec.sample_now = Ok cells
      /\ Frontend.status <$> cells !! 7%nat = Some Frontend.completed
      /\ Frontend.status <$> cells !! 8%nat = Some Frontend.missed)
  /\ (exists cells,
      @Frontend.calendarCells Platform.IST (Some Spec.sample_analytics)
        (Some Spec.sample_habit) Spec.sample_logs Spec.sample_now = Ok cells
      /\ Frontend.status <$> cells !! 7%nat = Some Frontend.missed
      /\ Frontend.status <$> cells !! 8%nat = Some Frontend.completed).
Proof.
  split; (eexists; split; [vm_compute; reflexivity | split; reflexivity]).
Qed.

(* ===================================================================== *)
(** ** Facts about the streak loop, the numbers, the server and the client *)
(* ===================================================================== *)

Module StreakFacts.

Import Server Recursion Spec Rounding ServerFacts Props.

(** *** Bounds of the two streaks *)

Lemma walk_pairs_bounds (rest : list Z) :
  forall (prev r l : Z),
    1 <= r -> 0 <= l ->
    let res := walk_pairs prev rest r l in
    1 <= fst res /\ fst res <= snd res
    /\ fst res <= r + Z.of_nat (length rest)
    /\ snd res <= Z.max l r + Z.of_nat (length rest).
Proof.
  induction rest as [| c rest IH]; intros prev r l Hr Hl; cbn [walk_pairs length].
  - cbn [fst snd]. lia.
  - destruct (diffInDays prev c =? 1).
    + specialize (IH c (r + 1) l ltac:(lia) Hl). cbv zeta in IH. lia.
    + specialize (IH c 1 (Z.max l r) ltac:(lia) ltac:(lia)). cbv zeta in IH. lia.
Qed.

Lemma streaks_bounds (logs : list HabitLog) :
  let '(cur, longest) := streaks logs in
  0 <= cur /\ cur <= longest /\ longest <= Z.of_nat (length logs)
  /\ (logs <> [] -> 1 <= cur).
Proof.
  rewrite streaks_refines. destruct logs as [| p rest]; cbn [map streaks_rec].
  - repeat split; try lia. congruence.
  - pose proof (walk_pairs_bounds (map date rest) (date p) 1 0 ltac:(lia) ltac:(lia)) as H.
    cbv zeta in H. rewrite length_map in H.
    destruct (walk_pairs (date p) (map date rest) 1 0) as [c l]. cbn [fst snd] in H.
    cbn [length]. repeat split; try lia.
Qed.

(** *** The longest run *)

Lemma is_run_snoc_old (seen : list Z) (c s k : Z) :
  (forall x, In x seen -> x < c) ->
  is_run (seen ++ [c]) s k -> s + k - 1 < c -> is_run seen s k.
Proof.
  intros Hlt Hrun Hend j Hj. specialize (Hrun j Hj).
  apply in_app_or in Hrun. destruct Hrun as [H | [H | []]]; [exact H | lia].
Qed.

Lemma is_run_end_le (days : list Z) (c s k : Z) :
  (forall x, In x days -> x <= c) -> 1 <= k -> is_run days s k -> s + k - 1 <= c.
Proof.
  intros Hle Hk Hrun. specialize (Hrun (k - 1) ltac:(lia)). apply Hle in Hrun. lia.
Qed.

Lemma walk_pairs_longest (rest : list Z) :
  forall (seen : list Z) (p r l : Z),
    Sorted Z.lt (p :: rest) ->
    Forall valid_day (p :: rest) ->
    (forall x, In x seen -> x <= p) ->
    1 <= r ->
    (forall j, 0 <= j < r -> In (p - j) seen) ->
    ~ In (p - r) seen ->
    0 <= l ->
    (l = 0 \/ exists s, is_run seen s l) ->
    (forall s k, is_run seen s k -> k <= Z.max l r) ->
    let longest := snd (walk_pairs (p * MS_PER_DAY) (whole_days rest) r l) in
    1 <= longest
    /\ (exists s, is_run (seen ++ rest) s longest)
    /\ (forall s k, is_run (seen ++ rest) s k -> k <= longest).
Proof.
  induction rest as [| c rest IH];
    intros seen p r l Hs Hv Hle Hr Hrun Hmax Hl Hex Hub; cbv zeta.
  - cbn [whole_days map walk_pairs snd]. rewrite app_nil_r.
    split; [lia |]. split; [| exact Hub].
    destruct (Z.max_spec l r) as [[_ ->] | [Hlr ->]].
    + exists (p - (r - 1)). intros j Hj. replace (p - (r - 1) + j) with (p - (r - 1 - j)) by lia.
      apply Hrun. lia.
    + destruct Hex as [-> | Hex]; [lia | exact Hex].
  - apply Sorted_inv in Hs. destruct Hs as [Hs Hd]. apply HdRel_inv in Hd.
    pose proof (Forall_inv Hv) as Hvp. apply Forall_inv_tail in Hv.
    pose proof (Forall_inv Hv) as Hvc.
    replace (seen ++ c :: rest) with ((seen ++ [c]) ++ rest)
      by (rewrite <- app_assoc; reflexivity).
    cbn [whole_days map walk_pairs]. fold (whole_days rest).
    rewrite (diffInDays_valid_days p c Hvp Hvc).
    assert (Hlt : forall x, In x seen -> x < c) by (intros x Hx; specialize (Hle x Hx); lia).
    assert (Hle' : forall x, In x (seen ++ [c]) -> x <= c).
    { intros x Hx. apply in_app_or in Hx. destruct Hx as [Hx | [<- | []]]; [| lia].
      specialize (Hlt x Hx). lia. }
    assert (Hex' : forall l', (l' = 0 \/ exists s, is_run seen s l') ->
                              l' = 0 \/ exists s, is_run (seen ++ [c]) s l').
    { intros l' [-> | [s Hrs]]; [left; reflexivity | right].
      exists s. intros j Hj. apply in_or_app. left. apply Hrs, Hj. }
    destruct (Z.eqb_spec (c - p) 1) as [E | E].
    + apply (IH (seen ++ [c]) c (r + 1) l); try assumption; try lia.
      * intros j Hj. apply in_or_app.
        destruct (Z.eq_dec j 0) as [-> | Hj0].
        -- right. left. lia.
        -- left. replace (c - j) with (p - (j - 1)) by lia. apply Hrun. lia.
      * intros Hx. apply in_app_or in Hx. destruct Hx as [Hx | [Hx | []]]; [| lia].
        apply Hmax. replace (p - r) with (c - (r + 1)) by lia. exact Hx.
      * apply Hex', Hex.
      * intros s k Hk.
        destruct (Z_le_gt_dec k 0) as [Hk0 | Hk0]; [lia |].
        pose proof (is_run_end_le _ c s k Hle' ltac:(lia) Hk) as Hend.
        destruct (Z.eq_dec (s + k - 1) c) as [Hc | Hc].
        -- destruct (Z_le_gt_dec k (r + 1)) as [Hkr | Hkr]; [lia | exfalso].
           specialize (Hk (k - 1 - (r + 1)) ltac:(lia)).
           apply in_app_or in Hk. destruct Hk as [Hk | [Hk | []]]; [| lia].
           apply Hmax. replace (p - r) with (s + (k - 1 - (r + 1))) by lia. exact Hk.
        -- pose proof (Hub s k (is_run_snoc_old seen c s k Hlt Hk ltac:(lia))). lia.
    + apply (IH (seen ++ [c]) c 1 (Z.max l r)); try assumption; try lia.
      * intros j Hj. replace j with 0 by lia. apply in_or_app. right. left. lia.
      * intros Hx. apply in_app_or in Hx. destruct Hx as [Hx | [Hx | []]]; [| lia].
        specialize (Hle _ Hx). lia.
      * apply Hex'. right.
        destruct (Z.max_spec l r) as [[_ ->] | [Hlr ->]].
        -- exists (p - (r - 1)). intros j Hj.
           replace (p - (r - 1) + j) with (p - (r - 1 - j)) by lia. apply Hrun. lia.
        -- destruct Hex as [-> | Hex]; [lia | exact Hex].
      * intros s k Hk.
        destruct (Z_le_gt_dec k 0) as [Hk0 | Hk0]; [lia |].
        pose proof (is_run_end_le _ c s k Hle' ltac:(lia) Hk) as Hend.
        destruct (Z.eq_dec (s + k - 1) c) as [Hc | Hc].
        -- destruct (Z_le_gt_dec k 1) as [Hk1 | Hk1]; [lia | exfalso].
           specialize (Hk (k - 2) ltac:(lia)).
           apply in_app_or in Hk. destruct Hk as [Hk | [Hk | []]]; [| lia].
           specialize (Hle _ Hk). lia.
        -- pose proof (Hub s k (is_run_snoc_old seen c s k Hlt Hk ltac:(lia))). lia.
Qed.

Lemma longest_streak_run (logs : list HabitLog) (days : list Z) :
  map date logs = whole_days days ->
  days <> [] ->
  Sorted Z.lt days ->
  Forall valid_day days ->
  let longest := snd (streaks logs) in
  1 <= longest
  /\ (exists s, is_run days s longest)
  /\ (forall s k, is_run days s k -> k <= longest).
Proof.
  intros Hd Hne Hs Hv. rewrite streaks_refines, Hd.
  destruct days as [| p rest]; [congruence |].
  cbn [whole_days map streaks_rec]. fold (whole_days rest).
  apply (walk_pairs_longest rest [p] p 1 0 Hs Hv); try lia.
  - intros x [<- | []]. lia.
  - intros j Hj. replace j with 0 by lia. left. lia.
  - intros [Hx | []]. lia.
  - intros s k Hk.
    destruct (Z_le_gt_dec k 1) as [Hk1 | Hk1]; [lia | exfalso].
    pose proof (Hk 0 ltac:(lia)) as H0. pose proof (Hk 1 ltac:(lia)) as H1.
    destruct H0 as [H0 | []], H1 as [H1 | []]. lia.
Qed.

End StreakFacts.

Module NumberFacts.

Import Server Spec Rounding ServerFacts.

Local Open Scope Q_scope.

(** Half-integers below [2^53] are floats. *)
Lemma round64_half (m : Z) :
  (Z.abs m < 2 ^ prec)%Z -> round64 (inject_Z m / 2) == inject_Z m / 2.
Proof.
  intros Hm.
  assert (E : forall k : Z, inject_Z k / 2 == inject_Z k * 2 ^ (-1)).
  { intros k. change (2 ^ (-1)) with (/ 2). reflexivity. }
  destruct (Z.lt_trichotomy m 0) as [H | [H | H]].
  - assert (N : inject_Z m / 2 < 0).
    { rewrite (Zlt_Qlt m 0) in H. change (inject_Z 0) with 0 in H.
      apply Qlt_shift_div_r; lra. }
    rewrite round64_of_neg by exact N.
    assert (E' : - (inject_Z m / 2) == inject_Z (- m) * 2 ^ (-1)).
    { rewrite inject_Z_opp. change (2 ^ (-1)) with (/ 2). field. }
    assert (N' : 0 < - (inject_Z m / 2)) by lra.
    rewrite (round64_pos_comp _ _ N' E').
    rewrite round64_pos_exact by lia. rewrite <- E'. ring.
  - subst m. reflexivity.
  - pose proof (inject_Z_pos m H) as P.
    assert (N : 0 < inject_Z m / 2) by (apply Qlt_shift_div_l; lra).
    rewrite round64_of_pos by exact N.
    rewrite (round64_pos_comp _ _ N (E m)).
    rewrite round64_pos_exact by lia. rewrite E. reflexivity.
Qed.

(** The error of one rounding, on either side of zero. *)
Lemma round64_error_abs (x : Q) :
  x - Qabs x * eps <= round64 x /\ round64 x <= x + Qabs x * eps.
Proof.
  destruct (Qlt_le_dec x 0) as [H | H].
  - rewrite round64_of_neg by exact H.
    destruct (round64_pos_error (- x) ltac:(lra)) as [L U].
    rewrite (Qabs_neg x) by lra. split; lra.
  - rewrite (Qabs_pos x) by exact H. apply round64_error, H.
Qed.

Lemma Qabs_inject_Z (n : Z) : Qabs (inject_Z n) == inject_Z (Z.abs n).
Proof.
  destruct (Z.le_gt_cases 0 n) as [H | H].
  - rewrite Z.abs_eq by exact H. apply Qabs_pos.
    rewrite (Zle_Qle 0 n) in H. exact H.
  - rewrite Z.abs_neq by lia. rewrite inject_Z_opp. apply Qabs_neg.
    assert (H' : (n <= 0)%Z) by lia. rewrite (Zle_Qle n 0) in H'. exact H'.
Qed.

(** [Math.round(n / d)] in binary64 is the exact quotient rounded to the
    nearest whole number, halves up. *)
Lemma Math_round_js_div (n d : Z) :
  (Z.abs n < 2 ^ (prec - 1))%Z -> (0 < d)%Z ->
  Math_round (js_div (inject_Z n) (inject_Z d)) = ((2 * n + d) / (2 * d))%Z.
Proof.
  intros Hn Hd. set (k := ((2 * n + d) / (2 * d))%Z).
  pose proof (inject_Z_pos d Hd) as HD.
  assert (Hk : (2 * d * k <= 2 * n + d < 2 * d * (k + 1))%Z).
  { pose proof (Z.mul_div_le (2 * n + d) (2 * d) ltac:(lia)).
    pose proof (Z.mul_succ_div_gt (2 * n + d) (2 * d) ltac:(lia)).
    fold k in H, H0. lia. }
  clearbody k.
  assert (K1 : 2 * inject_Z d * inject_Z k <= 2 * inject_Z n + inject_Z d).
  { destruct Hk as [Hk _]. rewrite Zle_Qle in Hk.
    rewrite inject_Z_plus, !inject_Z_mult in Hk. exact Hk. }
  assert (K2 : 2 * inject_Z n + inject_Z d + 1 <= 2 * inject_Z d * (inject_Z k + 1)).
  { destruct Hk as [_ Hk]. assert (Hk' : (2 * n + d + 1 <= 2 * d * (k + 1))%Z) by lia.
    rewrite Zle_Qle in Hk'.
    rewrite !inject_Z_plus, !inject_Z_mult, !inject_Z_plus in Hk'. exact Hk'. }
  set (x := inject_Z n / inject_Z d).
  assert (Hx : x * inject_Z d == inject_Z n) by (unfold x; field; lra).
  assert (Hkn : (Z.abs (2 * k - 1) < 2 ^ prec)%Z).
  { assert (P : (2 ^ prec = 2 * 2 ^ (prec - 1))%Z) by reflexivity.
    assert (B : (- (2 * Z.abs n + 1) * d <= 2 * d * k /\ 2 * d * k <= (2 * Z.abs n + 1) * d)%Z)
      by (split; nia).
    assert (B' : (- (2 * Z.abs n + 1) <= 2 * k <= 2 * Z.abs n + 1)%Z) by (split; nia).
    lia. }
  unfold js_div. fold x. clearbody x.
  apply (Math_round_scaled _ (inject_Z d) k HD).
  - (* the half-integer below is a float *)
    assert (L : inject_Z (2 * k - 1) / 2 <= x).
    { apply Qle_shift_div_r; [lra |]. unfold Zminus.
      rewrite inject_Z_plus, inject_Z_mult. change (inject_Z (- (1))) with (-1).
      change (inject_Z 2) with 2.
      assert (2 * inject_Z k - 1 <= 2 * x); [| lra].
      apply (Qmult_le_r _ _ (inject_Z d) HD). nra. }
    apply round64_mono in L. rewrite round64_half in L by exact Hkn.
    unfold Zminus in L. rewrite inject_Z_plus, inject_Z_mult in L.
    change (inject_Z (- (1))) with (-1) in L. change (inject_Z 2) with 2 in L.
    set (r := round64 x) in *. clearbody r.
    assert (L' : inject_Z k - (1 # 2) <= r).
    { assert (Q2 : (2 * inject_Z k + -1) / 2 == inject_Z k - (1 # 2)) by field.
      rewrite Q2 in L. exact L. }
    nra.
  - destruct (round64_error_abs x) as [_ U].
    set (r := round64 x) in *. clearbody r.
    assert (A : Qabs x * inject_Z d == inject_Z (Z.abs n)).
    { rewrite <- Qabs_inject_Z, <- Hx, Qabs_Qmult.
      rewrite (Qabs_pos (inject_Z d)) by lra. reflexivity. }
    pose proof (eps_small (2 * Z.abs n) ltac:(split; [lia |]; change (2 ^ prec)%Z with (2 * 2 ^ (prec - 1))%Z; lia)) as S.
    rewrite inject_Z_mult in S. change (inject_Z 2) with 2 in S.
    pose proof eps_pos as Pe.
    set (a := Qabs x) in *. clearbody a.
    set (N := inject_Z n) in *. set (D := inject_Z d) in *. set (K := inject_Z k) in *.
    set (AN := inject_Z (Z.abs n)) in *. clearbody N D K AN.
    assert (U' : r * D <= x * D + a * eps * D) by nra.
    assert (U2 : a * eps * D == AN * eps) by (rewrite <- A; ring).
    rewrite U2, Hx in U'. lra.
Qed.

(** The consecutive-day test of the streak loop: a gap of at least twelve
    and less than thirty-six hours. *)
Lemma diffInDays_one (prev curr : Z) :
  (diffInDays prev curr = 1 <-> 43200000 <= curr - prev < 129600000)%Z.
Proof.
  unfold diffInDays, js_div. set (n := (curr - prev)%Z).
  change MS_PER_DAY with 86400000%Z.
  set (x := inject_Z n / inject_Z 86400000).
  assert (HD : 0 < inject_Z 86400000) by reflexivity.
  assert (Hx : x * inject_Z 86400000 == inject_Z n) by (unfold x; field; lra).
  clearbody x. clearbody n.
  change (inject_Z 86400000) with 86400000 in *.
  pose proof (round64_half 1 ltac:(reflexivity)) as H1.
  pose proof (round64_half 3 ltac:(reflexivity)) as H3.
  change (inject_Z 1 / 2) with (1 # 2) in H1. change (inject_Z 3 / 2) with (3 # 2) in H3.
  destruct (Z_lt_le_dec n 43200000) as [Lo | Lo].
  - (* too close: the quotient rounds below one half *)
    split; [| lia]. intros E. exfalso.
    assert (R : round64 x < 1 # 2).
    { destruct (Z_lt_le_dec n 0) as [Neg | Pos].
      - assert (x <= 0).
        { rewrite (Zlt_Qlt n 0) in Neg. change (inject_Z 0) with 0 in Neg. nra. }
        apply round64_mono in H. change (round64 0) with 0 in H. lra.
      - assert (X0 : 0 <= x).
        { rewrite (Zle_Qle 0 n) in Pos. change (inject_Z 0) with 0 in Pos. nra. }
        destruct (round64_error x X0) as [_ U].
        pose proof (eps_small (2 * n) ltac:(split; [lia |]; change (2 ^ prec)%Z with 9007199254740992%Z; lia)) as S.
        rewrite inject_Z_mult in S. change (inject_Z 2) with 2 in S.
        assert (B : inject_Z n <= 43199999).
        { change 43199999 with (inject_Z 43199999). rewrite <- Zle_Qle. lia. }
        pose proof eps_pos as Pe.
        set (r := round64 x) in *. clearbody r.
        set (N := inject_Z n) in *. clearbody N.
        assert (U' : r * 86400000 <= x * 86400000 + x * 86400000 * eps) by nra.
        rewrite Hx in U'.
        assert (S2 : 2 * N * eps == 2 * (N * eps)) by ring. rewrite S2 in S.
        clear - S B U'. lra. }
    unfold Math_round in E.
    destruct (Qfloor_bounds (round64 x + (1 # 2))) as [F _]. rewrite E in F.
    change (inject_Z 1) with 1 in F. lra.
  - destruct (Z_lt_le_dec n 129600000) as [Hi | Hi].
    + split; [lia | intros _].
      assert (L : (1 # 2) <= x).
      { rewrite (Zle_Qle 43200000 n) in Lo. change (inject_Z 43200000) with 43200000 in Lo.
        nra. }
      assert (X0 : 0 <= x) by lra.
      apply round64_mono in L. rewrite H1 in L.
      destruct (round64_error x X0) as [_ U].
      pose proof (eps_small (2 * n) ltac:(split; [lia |]; change (2 ^ prec)%Z with 9007199254740992%Z; lia)) as S.
      rewrite inject_Z_mult in S. change (inject_Z 2) with 2 in S.
      assert (B : inject_Z n <= 129599999).
      { change 129599999 with (inject_Z 129599999). rewrite <- Zle_Qle. lia. }
      pose proof eps_pos as Pe.
      set (r := round64 x) in *. clearbody r.
      set (N := inject_Z n) in *. clearbody N.
      assert (U' : r * 86400000 <= x * 86400000 + x * 86400000 * eps) by nra.
      rewrite Hx in U'.
      assert (S2 : 2 * N * eps == 2 * (N * eps)) by ring. rewrite S2 in S.
      apply Qfloor_unique; change (inject_Z 1) with 1; clear - S B U' L; lra.
    + (* too far apart: the quotient rounds to at least three halves *)
      split; [| lia]. intros E. exfalso.
      assert (L : (3 # 2) <= x).
      { rewrite (Zle_Qle 129600000 n) in Hi. change (inject_Z 129600000) with 129600000 in Hi.
        nra. }
      apply round64_mono in L. rewrite H3 in L.
      unfold Math_round in E.
      destruct (Qfloor_bounds (round64 x + (1 # 2))) as [_ F]. rewrite E in F.
      change (inject_Z 1) with 1 in F. lra.
Qed.

Local Close Scope Q_scope.

(** The rate of a log count within the eligible window. *)
Lemma completionRateOf_range (t e : Z) :
  0 <= t <= e -> 0 < e ->
  0 <= completionRateOf t e <= 100 /\ completionRateOf e e = 100.
Proof.
  intros Ht He.
  assert (Z0 : completionRateOf 0 e = 0).
  { unfold completionRateOf. destruct (Z.ltb_spec 0 e); [| lia].
    apply Math_round_Z. unfold js_mul, js_div.
    assert (E : (inject_Z 0 / inject_Z e == 0)%Q) by (change (inject_Z 0) with 0%Q; apply Qmult_0_l).
    assert (E1 := round64_comp _ _ E). change (round64 0) with 0%Q in E1.
    assert (E2 : (round64 (inject_Z 0 / inject_Z e) * 100 == 0)%Q) by (rewrite E1; reflexivity).
    rewrite (round64_comp _ _ E2). reflexivity. }
  assert (Z1 : completionRateOf e e = 100).
  { unfold completionRateOf. destruct (Z.ltb_spec 0 e); [| lia].
    apply Math_round_Z. unfold js_mul, js_div.
    pose proof (inject_Z_pos e He) as P.
    assert (E : (inject_Z e / inject_Z e == inject_Z 1)%Q) by (change (inject_Z 1) with 1%Q; field; lra).
    assert (E1 := round64_comp _ _ E). rewrite round64_Z in E1 by reflexivity.
    assert (E2 : (round64 (inject_Z e / inject_Z e) * 100 == inject_Z 100)%Q)
      by (rewrite E1; reflexivity).
    rewrite (round64_comp _ _ E2). apply round64_Z. reflexivity. }
  pose proof (completionRateOf_mono 0 t e ltac:(lia)).
  pose proof (completionRateOf_mono t e e ltac:(lia)).
  lia.
Qed.

End NumberFacts.

Module ApiFacts.

Import Text Api Props.

(** *** Lists *)

Lemma NoDup_snoc {A : Type} (l : list A) (x : A) :
  List.NoDup l -> ~ In x l -> List.NoDup (l ++ [x]).
Proof.
  intros Hl Hx. apply List.NoDup_app; [exact Hl | repeat constructor; intros [] |].
  intros a Ha [<- | []]. exact (Hx Ha).
Qed.

Lemma find_map_pres {A : Type} (p : A -> bool) (g : A -> A) (l : list A) :
  (forall x, p (g x) = p x) ->
  List.find p (map g l) = g <$> List.find p l.
Proof.
  intros Hg. induction l as [| x l IH]; [reflexivity |]. cbn [map List.find].
  rewrite Hg. destruct (p x); [reflexivity | exact IH].
Qed.

Lemma find_In {A : Type} (p : A -> bool) (l : list A) (x : A) :
  In x l -> p x = true -> exists y, List.find p l = Some y.
Proof.
  intros Hin Hp. destruct (List.find p l) as [y |] eqn:E; [exists y; reflexivity |].
  pose proof (find_none _ _ E x Hin) as Hn. congruence.
Qed.

Lemma map_unmatched {A : Type} (p : A -> bool) (g : A -> A) (l : list A) :
  List.find p l = None -> map (fun x => if p x then g x else x) l = l.
Proof.
  intros Hf. rewrite <- (map_id l) at 2. apply map_ext_in.
  intros x Hx. rewrite (find_none _ _ Hf x Hx). reflexivity.
Qed.

(** *** Strings *)

Lemma present_Some (s : string) : s <> EmptyString -> present (Some s) = Some s.
Proof.
  intros Hs. unfold present. destruct (String.eqb_spec s EmptyString); [contradiction | reflexivity].
Qed.

Lemma present_inv (x : option string) (s : string) :
  present x = Some s -> x = Some s /\ s <> EmptyString.
Proof.
  unfold present. destruct x as [t |]; [| discriminate].
  destruct (String.eqb_spec t EmptyString); [discriminate |].
  intros [= <-]. split; [reflexivity | assumption].
Qed.

Lemma split_spaceless (s : string) : spaceless s = true -> split space s = [s].
Proof.
  induction s as [| a s IH]; [reflexivity |]. cbn [spaceless split].
  intros Hs. apply andb_prop in Hs. destruct Hs as [Ha Hs].
  apply negb_true_iff in Ha. rewrite Ha, (IH Hs). reflexivity.
Qed.

Lemma split_prefix (pre s : string) :
  spaceless pre = true ->
  split space (pre +:+ String space s) = pre :: split space s.
Proof.
  induction pre as [| a pre IH]; cbn [spaceless]; intros Hs.
  - change (EmptyString +:+ String space s) with (String space s).
    cbn [split]. rewrite Ascii.eqb_refl. reflexivity.
  - change (String a pre +:+ String space s) with (String a (pre +:+ String space s)).
    apply andb_prop in Hs. destruct Hs as [Ha Hs].
    apply negb_true_iff in Ha. cbn [split]. rewrite Ha, (IH Hs). reflexivity.
Qed.

Lemma split_bearer (token : string) :
  spaceless token = true ->
  split space ("Bearer " +:+ token) = ["Bearer"%string; token].
Proof.
  intros Hs.
  change ("Bearer " +:+ token) with ("Bearer" +:+ String space token).
  rewrite split_prefix by reflexivity. rewrite (split_spaceless token Hs). reflexivity.
Qed.

(** *** Accounts *)

Lemma findUser_Some (users : list User) (e : string) (u : User) :
  findUser users e = Some u -> In u users /\ email u = e.
Proof.
  unfold findUser. intros Hf. apply find_some in Hf. destruct Hf as [Hin He].
  apply String.eqb_eq in He. split; assumption.
Qed.

Lemma findUser_None (users : list User) (e : string) :
  findUser users e = None -> ~ In e (map email users).
Proof.
  unfold findUser. intros Hf Hin. apply in_map_iff in Hin. destruct Hin as [u [He Hu]].
  pose proof (find_none _ _ Hf u Hu) as Hn. cbv beta in Hn.
  rewrite He, String.eqb_refl in Hn. discriminate.
Qed.

Lemma findUser_app_new (users : list User) (u : User) :
  findUser users (email u) = None -> findUser (users ++ [u]) (email u) = Some u.
Proof.
  unfold findUser. induction users as [| v users IH]; cbn [app List.find].
  - rewrite String.eqb_refl. reflexivity.
  - destruct (String.eqb (email v) (email u)); [discriminate | exact IH].
Qed.

Lemma register_inv `{Crypto} (users : list User) (fresh : Z) (salt : string)
    (e p n : option string) (users' : list User) (resp : AuthResponse) :
  register users fresh salt e p n = (users', Json 201 resp) ->
  exists e' p',
    e = Some e' /\ e' <> EmptyString /\ p = Some p' /\ p' <> EmptyString
    /\ findUser users e' = None
    /\ let user := {| user_id := fresh; email := e'; password := bcrypt_hash salt p';
                      name := present n |} in
       users' = users ++ [user]
       /\ resp = {| auth_user := public user; auth_token := generateToken user |}.
Proof.
  unfold register. intros Hr.
  destruct (present e) as [e' |] eqn:He; [| destruct (present p); discriminate].
  destruct (present p) as [p' |] eqn:Hp; [| discriminate].
  destruct (findUser users e') eqn:Hf; [discriminate |].
  apply present_inv in He, Hp. destruct He as [-> He], Hp as [-> Hp].
  exists e', p'. injection Hr as <- <-. repeat split; assumption.
Qed.

Lemma register_login `{Crypto} (users : list User) (fresh : Z) (salt e p : string)
    (n : option string) (users' : list User) (resp : AuthResponse) :
  register users fresh salt (Some e) (Some p) n = (users', Json 201 resp) ->
  (forall p', p' <> EmptyString -> bcrypt_compare p' (bcrypt_hash salt p) = true ->
              exists token, login users' (Some e) (Some p')
                            = Json 200 {| auth_user := auth_user resp; auth_token := token |})
  /\ (forall p', p' <> EmptyString -> bcrypt_compare p' (bcrypt_hash salt p) = false ->
                 login users' (Some e) (Some p') = Message 401 "Invalid credentials")
  /\ (forall fresh' salt' p' n',
        p' <> EmptyString ->
        register users' fresh' salt' (Some e) (Some p') n'
        = (users', Message 409 "Email already in use")).
Proof.
  intros Hr. apply register_inv in Hr.
  destruct Hr as [e' [p0 [[= <-] [He [[= <-] [Hp [Hf [-> ->]]]]]]]].
  set (user := {| user_id := fresh; email := e; password := bcrypt_hash salt p;
                  name := present n |}).
  assert (Hfind : findUser (users ++ [user]) e = Some user)
    by (apply (findUser_app_new users user); exact Hf).
  repeat split.
  - intros p' Hp' Hc. exists (generateToken user). unfold login.
    rewrite (present_Some e He), (present_Some p' Hp'), Hfind.
    cbn [password user]. rewrite Hc. reflexivity.
  - intros p' Hp' Hc. unfold login.
    rewrite (present_Some e He), (present_Some p' Hp'), Hfind.
    cbn [password user]. rewrite Hc. reflexivity.
  - intros fresh' salt' p' n' Hp'. unfold register.
    rewrite (present_Some e He), (present_Some p' Hp'), Hfind. reflexivity.
Qed.

Lemma register_unique `{Crypto} (users : list User) (fresh : Z) (salt : string)
    (e p n : option string) :
  List.NoDup (map email users) ->
  List.NoDup (map email (fst (register users fresh salt e p n))).
Proof.
  intros Hnd. unfold register.
  destruct (present e) as [e' |]; [| destruct (present p); exact Hnd].
  destruct (present p) as [p' |]; [| exact Hnd].
  destruct (findUser users e') eqn:Hf; [exact Hnd |].
  cbn [fst]. rewrite map_app. cbn [map email].
  apply NoDup_snoc; [exact Hnd | exact (findUser_None users e' Hf)].
Qed.

Lemma authMiddleware_bearer `{Crypto} (token : string) :
  token <> EmptyString -> spaceless token = true ->
  authMiddleware (Ui.authHeaders (Some token))
  = match jwt_verify token with
    | Some decoded => Next decoded
    | None => Reject 401 "Invalid or expired token"
    end.
Proof.
  intros Hne Hs. unfold Ui.authHeaders. rewrite (present_Some token Hne).
  unfold authMiddleware. rewrite present_Some by discriminate.
  assert (Hp : startsWith ("Bearer " +:+ token) "Bearer " = true)
    by (destruct token; reflexivity).
  rewrite Hp. cbn [negb]. rewrite (split_bearer token Hs). reflexivity.
Qed.

(** *** Habits *)

Lemma insert_by_createdAt_perm (h : HabitRow) (l : list HabitRow) :
  Permutation (insert_by_createdAt h l) (h :: l).
Proof.
  induction l as [| h' l IH]; cbn [insert_by_createdAt]; [reflexivity |].
  destruct (createdAt h <=? createdAt h'); [reflexivity |].
  rewrite IH. apply perm_swap.
Qed.

Lemma sort_by_createdAt_perm (l : list HabitRow) :
  Permutation (foldr insert_by_createdAt [] l) l.
Proof.
  induction l as [| h l IH]; cbn [foldr]; [reflexivity |].
  rewrite insert_by_createdAt_perm. constructor. exact IH.
Qed.

Lemma in_listHabits (habits : list HabitRow) (user : Claims) (h : HabitRow) :
  In h (listed (listHabits habits user))
  <-> In h habits /\ userId h = claim_id user /\ archived h = false.
Proof.
  unfold listHabits, listed. split.
  - intros Hin. apply (Permutation_in _ (sort_by_createdAt_perm _)) in Hin.
    apply List.filter_In in Hin. destruct Hin as [Hin Hb].
    apply andb_prop in Hb. destruct Hb as [H1 H2].
    apply Z.eqb_eq in H1. apply negb_true_iff in H2. auto.
  - intros [Hin [H1 H2]].
    apply (Permutation_in _ (Permutation_sym (sort_by_createdAt_perm _))).
    apply List.filter_In. split; [exact Hin |]. rewrite H1, Z.eqb_refl, H2. reflexivity.
Qed.

Lemma createHabit_inv `{DateAPI} (habits : list HabitRow) (user : Claims)
    (fresh now : Z) (body : HabitBody) (habits' : list HabitRow) (h : HabitRow) :
  createHabit habits user fresh now body = (habits', Json 201 h) ->
  habits' = habits ++ [h] /\ id h = fresh /\ userId h = claim_id user
  /\ archived h = false.
Proof.
  unfold createHabit. intros Hc.
  destruct (present (b_title body)); [| discriminate].
  destruct (present (b_frequency body)); [| discriminate].
  destruct (present (b_startDate body)); [| discriminate].
  destruct (parseDate _); [| discriminate].
  injection Hc as <- <-. repeat split; reflexivity.
Qed.

Lemma createHabit_listed `{DateAPI} (habits : list HabitRow) (user : Claims)
    (fresh now : Z) (body : HabitBody) (habits' : list HabitRow) (h : HabitRow) :
  createHabit habits user fresh now body = (habits', Json 201 h) ->
  In h (listed (listHabits habits' user))
  /\ (forall other, claim_id other <> claim_id user ->
                    listHabits habits' other = listHabits habits other).
Proof.
  intros Hc. apply createHabit_inv in Hc. destruct Hc as [-> [_ [Hu Ha]]]. split.
  - apply in_listHabits. split; [| split; assumption].
    apply in_or_app. right. left. reflexivity.
  - intros other Ho. unfold listHabits. rewrite List.filter_app. cbn [List.filter].
    rewrite Hu. destruct (Z.eqb_spec (claim_id user) (claim_id other)) as [E | _];
      [congruence |].
    cbn [andb]. rewrite app_nil_r. reflexivity.
Qed.

Lemma id_archive_of (habitId : Z) (x : HabitRow) : id (archive_of habitId x) = id x.
Proof. unfold archive_of. destruct (id x =? habitId); reflexivity. Qed.

Lemma deleteHabit_found (habits : list HabitRow) (user : Claims) (habitId : Z)
    (h0 : HabitRow) :
  In h0 habits -> id h0 = habitId ->
  exists h1,
    List.find (fun h => id h =? habitId) habits = Some h1 /\ id h1 = habitId
    /\ deleteHabit habits user habitId
       = (map (archive_of habitId) habits, Json 200 (archive h1)).
Proof.
  intros Hin Hid.
  destruct (find_In (fun h => id h =? habitId) habits h0 Hin) as [h1 Hf];
    [apply Z.eqb_eq; exact Hid |].
  exists h1. split; [exact Hf |].
  pose proof (find_some _ _ Hf) as [_ H1]. apply Z.eqb_eq in H1. split; [exact H1 |].
  unfold deleteHabit, updateRow. rewrite Hf. reflexivity.
Qed.

Lemma getAnalytics_archived `{DateAPI} (habits : list HabitRow)
    (table : list Server.HabitLog) (user : Claims) (habitId k now : Z) :
  getAnalytics (map (archive_of k) habits) table user habitId now
  = getAnalytics habits table user habitId now.
Proof.
  unfold getAnalytics.
  rewrite (find_map_pres (fun h => id h =? habitId) (archive_of k))
    by (intros x; rewrite id_archive_of; reflexivity).
  destruct (List.find _ habits) as [h |]; [| reflexivity]. cbn [fmap option_fmap option_map].
  rewrite id_archive_of. unfold archive_of. destruct (id h =? k); reflexivity.
Qed.

Lemma deleteHabit_archives `{DateAPI} (habits : list HabitRow) (user : Claims)
    (habitId : Z) (h0 : HabitRow) :
  In h0 habits -> id h0 = habitId ->
  let habits' := fst (deleteHabit habits user habitId) in
  (exists h, snd (deleteHabit habits user habitId) = Json 200 h
             /\ id h = habitId /\ archived h = true)
  /\ length habits' = length habits
  /\ (forall u x, In x (listed (listHabits habits' u)) -> id x <> habitId)
  /\ (forall table u now,
        getAnalytics habits' table u habitId now = getAnalytics habits table u habitId now
        /\ getAnalytics habits' table u habitId now <> Server.NotFound).
Proof.
  intros Hin Hid.
  destruct (deleteHabit_found habits user habitId h0 Hin Hid) as [h1 [Hf [H1 ->]]].
  cbn [fst snd]. repeat split.
  - exists (archive h1). repeat split. exact H1.
  - apply length_map.
  - intros u x Hx Hxid. apply in_listHabits in Hx. destruct Hx as [Hx [_ Ha]].
    apply in_map_iff in Hx. destruct Hx as [y [<- _]].
    rewrite id_archive_of in Hxid. unfold archive_of in Ha.
    rewrite (proj2 (Z.eqb_eq _ _) Hxid) in Ha. discriminate.
  - apply getAnalytics_archived.
  - rewrite getAnalytics_archived. unfold getAnalytics. rewrite Hf. discriminate.
Qed.

Lemma patch_unarchive (x : HabitRow) :
  archived x = false -> patch unarchive None (archive x) = x.
Proof. destruct x. cbn. intros ->. reflexivity. Qed.

Lemma delete_patch_restores `{DateAPI} (habits : list HabitRow) (user user' : Claims)
    (habitId : Z) :
  (forall x, In x habits -> id x = habitId -> archived x = false) ->
  fst (updateHabit (fst (deleteHabit habits user habitId)) user' habitId unarchive)
  = habits.
Proof.
  intros Ha. unfold deleteHabit, updateRow.
  destruct (List.find (fun h => id h =? habitId) habits) as [h1 |] eqn:Hf; cbn [fst].
  - fold (archive_of habitId). unfold updateHabit, updateRow. cbn [unarchive b_startDate present].
    rewrite (find_map_pres (fun h => id h =? habitId) (archive_of habitId))
      by (intros x; rewrite id_archive_of; reflexivity).
    rewrite Hf. cbn [fmap option_fmap option_map fst].
    rewrite map_map. rewrite <- (map_id habits) at 2. apply map_ext_in.
    intros x Hx. rewrite id_archive_of. unfold archive_of.
    destruct (Z.eqb_spec (id x) habitId) as [E | E]; [| reflexivity].
    apply patch_unarchive, Ha; assumption.
  - unfold updateHabit, updateRow. cbn [unarchive b_startDate present]. rewrite Hf.
    reflexivity.
Qed.

(** *** Logs *)

Lemma same_key_complete_of (habitId date : Z) (x : Server.HabitLog) :
  same_key habitId date (complete_of habitId date x) = same_key habitId date x.
Proof. unfold complete_of. destruct (same_key habitId date x) eqn:E; [| exact E]. exact E. Qed.

Lemma complete_of_idem (habitId date : Z) (x : Server.HabitLog) :
  complete_of habitId date (complete_of habitId date x) = complete_of habitId date x.
Proof.
  unfold complete_of at 2. destruct (same_key habitId date x) eqn:E.
  - unfold complete_of. change (same_key habitId date (complete x)) with (same_key habitId date x).
    rewrite E. reflexivity.
  - unfold complete_of. rewrite E. reflexivity.
Qed.

Lemma key_complete_of (habitId date : Z) (x : Server.HabitLog) :
  key (complete_of habitId date x) = key x.
Proof. unfold complete_of. destruct (same_key habitId date x); reflexivity. Qed.

Lemma same_key_key (habitId date : Z) (x : Server.HabitLog) :
  same_key habitId date x = true <-> key x = (habitId, date).
Proof.
  unfold same_key, key. rewrite andb_true_iff, !Z.eqb_eq. split.
  - intros [-> ->]. reflexivity.
  - intros [= -> ->]. split; reflexivity.
Qed.

Lemma find_key_None (table : list Server.HabitLog) (habitId date : Z) :
  List.find (same_key habitId date) table = None
  <-> ~ In (habitId, date) (map key table).
Proof.
  split.
  - intros Hf Hin. apply in_map_iff in Hin. destruct Hin as [x [Hk Hx]].
    apply same_key_key in Hk. rewrite (find_none _ _ Hf x Hx) in Hk. discriminate.
  - intros Hn. destruct (List.find _ table) as [x |] eqn:Hf; [exfalso | reflexivity].
    apply find_some in Hf. destruct Hf as [Hx Hk]. apply same_key_key in Hk.
    apply Hn. rewrite <- Hk. apply in_map. exact Hx.
Qed.

Lemma upsert_spec (table : list Server.HabitLog) (fresh habitId date : Z) :
  fst (upsert table fresh habitId date)
  = match List.find (same_key habitId date) table with
    | Some _ => map (complete_of habitId date) table
    | None => table ++ [{| Server.log_id := fresh; Server.habitId := habitId;
                           Server.date := date; Server.completed := true |}]
    end.
Proof. unfold upsert. destruct (List.find _ table); reflexivity. Qed.

Lemma find_app_new (table : list Server.HabitLog) (habitId date : Z)
    (r : Server.HabitLog) :
  List.find (same_key habitId date) table = None ->
  same_key habitId date r = true ->
  List.find (same_key habitId date) (table ++ [r]) = Some r.
Proof.
  intros Hf Hr. induction table as [| x table IH]; cbn [app List.find] in *.
  - rewrite Hr. reflexivity.
  - destruct (same_key habitId date x); [discriminate | exact (IH Hf)].
Qed.

Lemma upsert_idem (table : list Server.HabitLog) (fresh fresh' habitId date : Z) :
  let table1 := fst (upsert table fresh habitId date) in
  fst (upsert table1 fresh' habitId date) = table1.
Proof.
  cbv zeta. rewrite (upsert_spec table).
  destruct (List.find (same_key habitId date) table) as [r |] eqn:Hf.
  - rewrite upsert_spec.
    rewrite (find_map_pres _ _ _ (same_key_complete_of habitId date)), Hf.
    cbn [fmap option_fmap option_map]. rewrite map_map.
    apply map_ext. intros x. apply complete_of_idem.
  - rewrite upsert_spec.
    set (r := {| Server.log_id := fresh; Server.habitId := habitId;
                 Server.date := date; Server.completed := true |}).
    assert (Hr : same_key habitId date r = true)
      by (unfold same_key, r; cbn; rewrite !Z.eqb_refl; reflexivity).
    rewrite (find_app_new table habitId date r Hf Hr).
    rewrite map_app. cbn [map]. unfold complete_of at 2. rewrite Hr.
    fold (complete_of habitId date).
    assert (E : map (complete_of habitId date) table = table)
      by (apply (map_unmatched (same_key habitId date) complete); exact Hf).
    unfold complete_of in E |- *. rewrite E. reflexivity.
Qed.

Lemma postLog_table `{DateAPI} (table : list Server.HabitLog) (user : Claims)
    (fresh habitId : Z) (date : option string) :
  fst (postLog table user fresh habitId date)
  = match present date with
    | Some s => match parseDate s with
                | Some d => fst (upsert table fresh habitId d)
                | None => table
                end
    | None => table
    end.
Proof.
  unfold postLog. destruct (present date) as [s |]; [| reflexivity].
  destruct (parseDate s) as [d |]; [| reflexivity].
  destruct (upsert table fresh habitId d). reflexivity.
Qed.

Lemma postLog_idem `{DateAPI} (table : list Server.HabitLog) (user user' : Claims)
    (fresh fresh' habitId : Z) (date : option string) :
  let table1 := fst (postLog table user fresh habitId date) in
  fst (postLog table1 user' fresh' habitId date) = table1.
Proof.
  cbv zeta. rewrite !postLog_table.
  destruct (present date) as [s |]; [| reflexivity].
  destruct (parseDate s) as [d |]; [| reflexivity].
  apply upsert_idem.
Qed.

Lemma upsert_unique (table : list Server.HabitLog) (fresh habitId date : Z) :
  List.NoDup (map key table) ->
  List.NoDup (map key (fst (upsert table fresh habitId date))).
Proof.
  intros Hnd. rewrite upsert_spec.
  destruct (List.find (same_key habitId date) table) as [r |] eqn:Hf.
  - rewrite map_map. rewrite (map_ext _ key (key_complete_of habitId date)). exact Hnd.
  - rewrite map_app. cbn [map]. apply NoDup_snoc; [exact Hnd |].
    apply find_key_None. exact Hf.
Qed.

Lemma postLog_unique `{DateAPI} (table : list Server.HabitLog) (user : Claims)
    (fresh habitId : Z) (date : option string) :
  List.NoDup (map key table) ->
  List.NoDup (map key (fst (postLog table user fresh habitId date))).
Proof.
  intros Hnd. rewrite postLog_table.
  destruct (present date) as [s |]; [| exact Hnd].
  destruct (parseDate s) as [d |]; [| exact Hnd].
  apply upsert_unique, Hnd.
Qed.

Lemma after_posts_unique `{DateAPI} (requests : list LogRequest) :
  forall table,
    List.NoDup (map key table) -> List.NoDup (map key (after_posts table requests)).
Proof.
  induction requests as [| q requests IH]; intros table Hnd; [exact Hnd |].
  cbn [after_posts fold_left]. apply IH, postLog_unique, Hnd.
Qed.

Lemma unique_keys_unique_dates (table : list Server.HabitLog) (habitId : Z) :
  List.NoDup (map key table) ->
  List.NoDup (map Server.date (Spec.completed_logs table habitId)).
Proof.
  unfold Spec.completed_logs.
  induction table as [| r table IH]; cbn [map List.filter]; intros Hnd; [constructor |].
  apply List.NoDup_cons_iff in Hnd. destruct Hnd as [Hr Hnd].
  destruct ((Server.habitId r =? habitId) && Server.completed r) eqn:E; [| exact (IH Hnd)].
  cbn [map]. constructor; [| exact (IH Hnd)].
  intros Hin. apply in_map_iff in Hin. destruct Hin as [x [Hd Hx]].
  apply List.filter_In in Hx. destruct Hx as [Hx Ex].
  apply andb_prop in E, Ex. destruct E as [E _], Ex as [Ex _].
  apply Z.eqb_eq in E, Ex. apply Hr. apply in_map_iff. exists x. split; [| exact Hx].
  unfold key. congruence.
Qed.

Lemma postLog_new `{DateAPI} (table : list Server.HabitLog) (user : Claims)
    (fresh habitId : Z) (s : string) (d : Z) :
  s <> EmptyString -> parseDate s = Some d ->
  ~ In (habitId, d) (map key table) ->
  fst (postLog table user fresh habitId (Some s))
  = table ++ [{| Server.log_id := fresh; Server.habitId := habitId;
                 Server.date := d; Server.completed := true |}].
Proof.
  intros Hs Hd Hn. rewrite postLog_table, (present_Some s Hs), Hd, upsert_spec.
  apply find_key_None in Hn. rewrite Hn. reflexivity.
Qed.

Lemma length_sort_by_date (l : list Server.HabitLog) :
  length (Server.sort_by_date l) = length l.
Proof. apply Permutation_length, ServerFacts.sort_by_date_perm. Qed.

Lemma postLog_counts `{DateAPI} (table : list Server.HabitLog) (user : Claims)
    (fresh habitId : Z) (s : string) (d : Z) :
  s <> EmptyString -> parseDate s = Some d ->
  ~ In (habitId, d) (map key table) ->
  let table' := fst (postLog table user fresh habitId (Some s)) in
  length (Server.findMany table' habitId) = S (length (Server.findMany table habitId))
  /\ (forall other, other <> habitId ->
                    Server.findMany table' other = Server.findMany table other).
Proof.
  intros Hs Hd Hn. cbv zeta. rewrite (postLog_new table user fresh habitId s d Hs Hd Hn).
  unfold Server.findMany. split.
  - rewrite !length_sort_by_date, List.filter_app, length_app. cbn [List.filter].
    cbn [Server.habitId Server.completed]. rewrite Z.eqb_refl. cbn [andb length]. lia.
  - intros other Ho. rewrite List.filter_app. cbn [List.filter].
    cbn [Server.habitId Server.completed].
    destruct (Z.eqb_spec habitId other) as [E | _]; [congruence |].
    cbn [andb]. rewrite app_nil_r. reflexivity.
Qed.

End ApiFacts.

Module UiFacts.

Import Frontend Spec Props FrontendFacts.

Section Client.

Context `{DateAPI}.

(** *** The weekday histogram adds up *)

Lemma tally_total (s : string) :
  (forall d, 0 <= getDay d <= 6) ->
  tally 0 s + tally 1 s + tally 2 s + tally 3 s + tally 4 s + tally 5 s + tally 6 s
  = if parses s then 1 else 0.
Proof.
  intros Hday. unfold tally, on_weekday, parses.
  destruct (parseDate s) as [d |]; [| reflexivity].
  assert (Hb : 0 <= Z.rem (getDay d + 6) 7 < 7)
    by (apply Z.rem_bound_pos; specialize (Hday d); lia).
  set (idx := Z.rem (getDay d + 6) 7) in *. clearbody idx.
  repeat match goal with
         | |- context [idx =? ?k] => destruct (Z.eqb_spec idx k)
         end; lia.
Qed.

Lemma weekday_count_total (l : list string) :
  (forall d, 0 <= getDay d <= 6) ->
  weekday_count l 0 + weekday_count l 1 + weekday_count l 2 + weekday_count l 3
  + weekday_count l 4 + weekday_count l 5 + weekday_count l 6
  = Z.of_nat (length (List.filter parses l)).
Proof.
  intros Hday. induction l as [| s l IH]; [reflexivity |].
  rewrite !weekday_count_cons. pose proof (tally_total s Hday) as Ht.
  cbn [List.filter]. destruct (parses s); cbn [length]; lia.
Qed.

Lemma weeklyData_total (a : HabitAnalytics) (l : list string) :
  (forall d, 0 <= getDay d <= 6) -> l <> [] ->
  bars_total (weeklyData (Some a) l) = Z.of_nat (length (List.filter parses l)).
Proof.
  intros Hday Hne. rewrite (weeklyData_nonempty a l Hne).
  rewrite <- (weekday_count_total l Hday). cbn [bars_total foldr value]. lia.
Qed.

Lemma filter_all {A : Type} (p : A -> bool) (l : list A) :
  List.Forall (fun x => p x = true) l -> List.filter p l = l.
Proof.
  induction 1 as [| x l Hx _ IH]; [reflexivity |]. cbn [List.filter]. rewrite Hx, IH.
  reflexivity.
Qed.

(** *** The pie chart *)

Lemma pieData_slices (a : HabitAnalytics) (h : Habit) (now start : Z) :
  parseDate (startDate h) = Some start ->
  setHours0 now - setHours0 start < 2 ^ 53 ->
  Ui.pieData (Some a) (Some h) now
  = [ {| Ui.slice_name := "Completed"; Ui.slice_value := totalCompletions a |};
      {| Ui.slice_name := "Missed";
         Ui.slice_value :=
           Z.max (eligibleDays (setHours0 now) (setHours0 start) - totalCompletions a) 0 |} ].
Proof.
  intros Hp Hb. unfold Ui.pieData. rewrite Hp. cbn [fmap option_fmap option_map].
  rewrite <- (ServerFacts.totalDays_eligibleDays _ _ Hb). reflexivity.
Qed.

End Client.

End UiFacts.

(* ===================================================================== *)
(** ** Further properties of the streak loop *)
(* ===================================================================== *)

(** Whatever the logs are, the two streaks of the handler satisfy
    [0 <= currentStreak <= longestStreak <= logs.length], and the current
    streak is at least 1 as soon as there is one log. *)
Theorem streaks_are_bounded_by_the_log_count :
  forall logs : list Server.HabitLog,
    0 <= fst (Server.streaks logs)
    /\ fst (Server.streaks logs) <= snd (Server.streaks logs)
    /\ snd (Server.streaks logs) <= Z.of_nat (length logs)
    /\ (logs <> [] -> 1 <= fst (Server.streaks logs)).
Proof.
  intros logs. pose proof (StreakFacts.streaks_bounds logs) as H.
  destruct (Server.streaks logs) as [cur longest]. exact H.
Qed.

(** For date-only logs in strictly ascending order, longestStreak is
    the length of the longest run of consecutive completed days: some run
    of that length is completed, and no completed run is longer. *)
Theorem longest_streak_is_the_longest_run :
  forall (logs : list Server.HabitLog) (days : list Z),
    map Server.date logs = Spec.whole_days days ->
    days <> [] ->
    Sorted Z.lt days ->
    Forall Spec.valid_day days ->
    1 <= snd (Server.streaks logs)
    /\ (exists s, Props.is_run days s (snd (Server.streaks logs)))
    /\ (forall s k, Props.is_run days s k -> k <= snd (Server.streaks logs)).
Proof. exact StreakFacts.longest_streak_run. Qed.

Lemma longest_streak_is_the_longest_run_witness :
  1 <= snd (Server.streaks (map Spec.on_day [1; 2; 3; 5]))
  /\ (exists s, Props.is_run [1; 2; 3; 5] s
                  (snd (Server.streaks (map Spec.on_day [1; 2; 3; 5]))))
  /\ (forall s k, Props.is_run [1; 2; 3; 5] s k ->
                  k <= snd (Server.streaks (map Spec.on_day [1; 2; 3; 5]))).
Proof.
  apply (longest_streak_is_the_longest_run
           (map Spec.on_day [1; 2; 3; 5]) [1; 2; 3; 5]).
  - reflexivity.
  - discriminate.
  - repeat constructor.
  - repeat constructor; unfold Z.le; simpl; discriminate.
Defined.

(** The loop counts two logs as consecutive days exactly when the
    second is at least 12 and less than 36 hours after the first: this is
    when [Math.round((curr - prev) / 86400000)], evaluated in binary64,
    is 1. *)
Theorem consecutive_days_are_12_to_36_hours_apart :
  forall prev curr : Z,
    Server.diffInDays prev curr = 1 <-> 43200000 <= curr - prev < 129600000.
Proof. exact NumberFacts.diffInDays_one. Qed.

(** For two dates less than [2^52] ms apart, [diffInDays] is the
    exact quotient of their distance by one day, rounded to the nearest
    whole number with halves up: the binary64 division loses nothing. *)
Theorem diffInDays_rounds_to_the_nearest_day :
  forall prev curr : Z,
    Z.abs (curr - prev) < 2 ^ 52 ->
    Server.diffInDays prev curr = (2 * (curr - prev) + MS_PER_DAY) / (2 * MS_PER_DAY).
Proof.
  intros prev curr Hb. unfold Server.diffInDays.
  apply NumberFacts.Math_round_js_div; [exact Hb | reflexivity].
Qed.

Lemma diffInDays_rounds_to_the_nearest_day_witness :
  Server.diffInDays (3 * MS_PER_DAY) (5 * MS_PER_DAY - 3600000)
  = (2 * (5 * MS_PER_DAY - 3600000 - 3 * MS_PER_DAY) + MS_PER_DAY) / (2 * MS_PER_DAY).
Proof. apply diffInDays_rounds_to_the_nearest_day. reflexivity. Defined.

(** With no more completions than eligible days the completion rate
    lies between 0 and 100, and it is 100 when every eligible day is
    completed. *)
Theorem completion_rate_within_the_window :
  forall total days : Z,
    0 <= total <= days -> 0 < days ->
    0 <= Server.completionRateOf total days <= 100
    /\ Server.completionRateOf days days = 100.
Proof. exact NumberFacts.completionRateOf_range. Qed.

Lemma completion_rate_within_the_window_witness :
  0 <= Server.completionRateOf 23 40 <= 100 /\ Server.completionRateOf 40 40 = 100.
Proof. apply completion_rate_within_the_window; lia. Defined.

(* ===================================================================== *)
(** ** Further properties of the charts *)
(* ===================================================================== *)

(** From the table to the chart: when the habit has a completed log
    and every log date the server sends parses on the client, the seven
    bars of the weekly chart add up to the Total Completions of the
    response. *)
Theorem weekly_bars_add_up_to_total_completions :
  forall (S C : DateAPI) (habit : Server.Habit) (table : list Server.HabitLog) (now : Z),
    (forall d, 0 <= @getDay C d <= 6) ->
    Server.findMany table (Server.habit_id habit) <> [] ->
    List.Forall (fun r => @Spec.parses C (@toISO C (Server.date r)) = true)
                (Server.findMany table (Server.habit_id habit)) ->
    exists res a,
      Engine.computeAnalytics S C habit table now = Ok res
      /\ Engine.stats res = Some a
      /\ Props.bars_total (Engine.weeklyBuckets res) = Frontend.totalCompletions a.
Proof.
  intros S C habit table now Hday Hne Hall.
  unfold Engine.computeAnalytics, Server.analytics, Engine.loadAnalytics, Engine.derive.
  set (logs := Server.findMany table (Server.habit_id habit)) in *.
  set (a := {| Frontend.currentStreak := _ |}).
  set (dates := map (fun log => @toISO C (Server.date log)) logs).
  destruct (@FrontendFacts.calendarCells_returns C (Some a)
              (Some {| Frontend.habit_id := Server.habit_id habit;
                       Frontend.startDate := @toISO C (Server.startDate habit) |})
              dates now) as [cells Hc].
  rewrite Hc. eexists. exists a. split; [reflexivity |]. split; [reflexivity |].
  cbn [Engine.weeklyBuckets].
  rewrite (@UiFacts.weeklyData_total C a dates Hday)
    by (unfold dates; destruct logs; [congruence | discriminate]).
  rewrite UiFacts.filter_all.
  - unfold dates. rewrite length_map. unfold a. cbn [Frontend.totalCompletions].
    unfold Server.stats_of. destruct (Server.streaks logs). reflexivity.
  - unfold dates. apply List.Forall_forall. intros s Hs.
    apply in_map_iff in Hs. destruct Hs as [r [<- Hr]].
    exact (proj1 (List.Forall_forall _ _) Hall r Hr).
Qed.

Lemma weekly_bars_add_up_to_total_completions_witness :
  exists res a,
    Engine.computeAnalytics Platform.UTC Platform.UTC Spec.rate_habit
      (map Spec.on_day [19727; 19723; 19725]) Spec.rate_now = Ok res
    /\ Engine.stats res = Some a
    /\ Props.bars_total (Engine.weeklyBuckets res) = Frontend.totalCompletions a.
Proof.
  apply weekly_bars_add_up_to_total_completions.
  - intros d. cbn. unfold Platform.weekday.
    pose proof (Z.mod_pos_bound (Platform.localDay 0 d + 4) 7). lia.
  - vm_compute. discriminate.
  - assert (E : Server.findMany (map Spec.on_day [19727; 19723; 19725])
                  (Server.habit_id Spec.rate_habit)
                = map Spec.on_day [19723; 19725; 19727]) by (vm_compute; reflexivity).
    rewrite E. repeat (constructor; [vm_compute; reflexivity |]). constructor.
Defined.

(** The pie chart of a habit whose start date parses: the slice
    Completed is the number of completions and the slice Missed is the
    rest of the eligible days, never below 0; so the two slices add up to
    the eligible days whenever there are no more completions than days. *)
Theorem pie_slices_cover_the_eligible_days :
  forall (P : DateAPI) (a : Frontend.HabitAnalytics) (h : Frontend.Habit) (now start : Z),
    @parseDate P (Frontend.startDate h) = Some start ->
    @setHours0 P now - @setHours0 P start < 2 ^ 53 ->
    @Ui.pieData P (Some a) (Some h) now
    = [ {| Ui.slice_name := "Completed";
           Ui.slice_value := Frontend.totalCompletions a |};
        {| Ui.slice_name := "Missed";
           Ui.slice_value :=
             Z.max (Spec.eligibleDays (@setHours0 P now) (@setHours0 P start)
                    - Frontend.totalCompletions a) 0 |} ].
Proof. intros P. exact (@UiFacts.pieData_slices P). Qed.

Lemma pie_slices_cover_the_eligible_days_witness :
  @Ui.pieData Platform.UTC (Some Spec.sample_analytics) (Some Spec.sample_habit)
    Spec.sample_now
  = [ {| Ui.slice_name := "Completed"; Ui.slice_value := 1 |};
      {| Ui.slice_name := "Missed"; Ui.slice_value := 12 |} ].
Proof.
  rewrite (pie_slices_cover_the_eligible_days Platform.UTC Spec.sample_analytics
             Spec.sample_habit Spec.sample_now (19756 * MS_PER_DAY)
             ltac:(reflexivity) ltac:(reflexivity)).
  reflexivity.
Defined.

(* ===================================================================== *)
(** ** The log table *)
(* ===================================================================== *)

(** Marking the same day of a habit twice is the same as marking it
    once: the second POST leaves the log table as the first one left it,
    whoever sends it. *)
Theorem marking_a_day_twice_keeps_one_log :
  forall (P : DateAPI) (table : list Server.HabitLog) (user user' : Api.Claims)
         (fresh fresh' habitId : Z) (date : option string),
    fst (@Api.postLog P (fst (@Api.postLog P table user fresh habitId date))
           user' fresh' habitId date)
    = fst (@Api.postLog P table user fresh habitId date).
Proof. intros P. exact (@ApiFacts.postLog_idem P). Qed.

(** The first log of a day counts once: a POST with a date that
    parses and that the habit has no log for adds one completed log to
    the logs the analytics of that habit read, and leaves the logs of
    every other habit as they are. *)
Theorem first_log_of_a_day_counts_once :
  forall (P : DateAPI) (table : list Server.HabitLog) (user : Api.Claims)
         (fresh habitId : Z) (s : string) (d : Z),
    s <> EmptyString ->
    @parseDate P s = Some d ->
    ~ In (habitId, d) (map Props.key table) ->
    length (Server.findMany (fst (@Api.postLog P table user fresh habitId (Some s))) habitId)
    = S (length (Server.findMany table habitId))
    /\ (forall other, other <> habitId ->
          Server.findMany (fst (@Api.postLog P table user fresh habitId (Some s))) other
          = Server.findMany table other).
Proof. intros P. exact (@ApiFacts.postLog_counts P). Qed.

Lemma first_log_of_a_day_counts_once_witness :
  length (Server.findMany
            (fst (@Api.postLog Platform.UTC (map Spec.on_day [19723; 19725]) Props.alice
                    7 1 (Some "2024-01-02"%string))) 1)
  = S (length (Server.findMany (map Spec.on_day [19723; 19725]) 1))
  /\ (forall other, other <> 1 ->
        Server.findMany
          (fst (@Api.postLog Platform.UTC (map Spec.on_day [19723; 19725]) Props.alice
                  7 1 (Some "2024-01-02"%string))) other
        = Server.findMany (map Spec.on_day [19723; 19725]) other).
Proof.
  apply (first_log_of_a_day_counts_once Platform.UTC _ _ _ _ _ (19724 * MS_PER_DAY)).
  - discriminate.
  - reflexivity.
  - vm_compute. intuition discriminate.
Defined.

(** In a log table filled through POST /habits/:id/logs no two logs
    of a habit have the same date, so the analytics of such a table do
    not depend on the order in which its rows are stored. *)
Theorem analytics_of_posted_logs_ignore_storage_order :
  forall (S C : DateAPI) (requests : list Props.LogRequest) (habit : Server.Habit)
         (table' : list Server.HabitLog) (now : Z),
    Permutation (@Props.after_posts S [] requests) table' ->
    List.NoDup (map Server.date
                  (Spec.completed_logs (@Props.after_posts S [] requests)
                     (Server.habit_id habit)))
    /\ Engine.computeAnalytics S C habit (@Props.after_posts S [] requests) now
       = Engine.computeAnalytics S C habit table' now.
Proof.
  intros S C requests habit table' now Hp.
  assert (Hnd : List.NoDup (map Server.date
                  (Spec.completed_logs (@Props.after_posts S [] requests)
                     (Server.habit_id habit)))).
  { apply ApiFacts.unique_keys_unique_dates, ApiFacts.after_posts_unique. constructor. }
  split; [exact Hnd |].
  unfold Engine.computeAnalytics, Server.analytics.
  rewrite (ServerFacts.findMany_perm _ table' _ Hp Hnd). reflexivity.
Qed.

Lemma analytics_of_posted_logs_ignore_storage_order_witness :
  let requests :=
    [ {| Props.req_user := Props.alice; Props.req_fresh := 1; Props.req_habit := 1;
         Props.req_date := Some "2024-01-03"%string |};
      {| Props.req_user := Props.alice; Props.req_fresh := 2; Props.req_habit := 1;
         Props.req_date := Some "2024-01-01"%string |};
      {| Props.req_user := Props.bob; Props.req_fresh := 3; Props.req_habit := 1;
         Props.req_date := Some "2024-01-03"%string |} ] in
  List.NoDup (map Server.date
                (Spec.completed_logs (@Props.after_posts Platform.UTC [] requests) 1))
  /\ Engine.computeAnalytics Platform.UTC Platform.IST Spec.rate_habit
       (@Props.after_posts Platform.UTC [] requests) Spec.rate_now
     = Engine.computeAnalytics Platform.UTC Platform.IST Spec.rate_habit
         (rev (@Props.after_posts Platform.UTC [] requests)) Spec.rate_now.
Proof.
  intros requests.
  apply (analytics_of_posted_logs_ignore_storage_order Platform.UTC Platform.IST
           requests Spec.rate_habit).
  apply Permutation_rev.
Defined.

(* ===================================================================== *)
(** ** Accounts and tokens *)
(* ===================================================================== *)

(** The header the client builds passes the middleware with the
    token it carries: for a token that is not empty and has no space,
    [authMiddleware] on [Bearer <token>] hands exactly that token to
    [jwt.verify], calls [next] with the decoded payload when the token
    verifies and answers 401 otherwise. *)
Theorem bearer_token_round_trip :
  forall (K : Api.Crypto) (token : string),
    token <> EmptyString ->
    Text.spaceless token = true ->
    @Api.authMiddleware K (Ui.authHeaders (Some token))
    = match @Api.jwt_verify K token with
      | Some decoded => Api.Next decoded
      | None => Api.Reject 401 "Invalid or expired token"
      end.
Proof. intros K. exact (@ApiFacts.authMiddleware_bearer K). Qed.

Lemma bearer_token_round_trip_witness :
  @Api.authMiddleware Props.sample_crypto (Ui.authHeaders (Some "alice@example.org"%string))
  = Api.Next Props.alice.
Proof.
  rewrite (bearer_token_round_trip Props.sample_crypto "alice@example.org"
             ltac:(discriminate) ltac:(reflexivity)).
  reflexivity.
Defined.

(** After a registration that succeeded, the account can log in: a
    password that [bcrypt.compare] accepts against the stored hash gets
    200 with the same public user, a password it refuses gets 401
    Invalid credentials, and a second registration of the email gets 409
    and leaves the table as it is. *)
Theorem registered_user_can_log_in :
  forall (K : Api.Crypto) (users : list Api.User) (fresh : Z) (salt e p : string)
         (n : option string) (users' : list Api.User) (resp : Api.AuthResponse),
    @Api.register K users fresh salt (Some e) (Some p) n = (users', Api.Json 201 resp) ->
    (forall p', p' <> EmptyString ->
                @Api.bcrypt_compare K p' (@Api.bcrypt_hash K salt p) = true ->
                exists token,
                  @Api.login K users' (Some e) (Some p')
                  = Api.Json 200 {| Api.auth_user := Api.auth_user resp;
                                    Api.auth_token := token |})
    /\ (forall p', p' <> EmptyString ->
                   @Api.bcrypt_compare K p' (@Api.bcrypt_hash K salt p) = false ->
                   @Api.login K users' (Some e) (Some p')
                   = Api.Message 401 "Invalid credentials")
    /\ (forall fresh' salt' p' n',
          p' <> EmptyString ->
          @Api.register K users' fresh' salt' (Some e) (Some p') n'
          = (users', Api.Message 409 "Email already in use")).
Proof. intros K. exact (@ApiFacts.register_login K). Qed.

Lemma registered_user_can_log_in_witness :
  exists token,
    @Api.login Props.sample_crypto
      (fst (@Api.register Props.sample_crypto [] 1 "s1" (Some "alice@example.org"%string)
              (Some "secret"%string) None))
      (Some "alice@example.org"%string) (Some "secret"%string)
    = Api.Json 200 {| Api.auth_user := {| Api.pub_id := 1;
                                          Api.pub_email := "alice@example.org";
                                          Api.pub_name := None |};
                      Api.auth_token := token |}.
Proof.
  apply (proj1 (registered_user_can_log_in Props.sample_crypto [] 1 "s1"
                  "alice@example.org" "secret" None _ _ eq_refl)
               "secret"%string).
  - discriminate.
  - reflexivity.
Defined.

(** Registration keeps the emails of the user table distinct. *)
Theorem register_keeps_emails_unique :
  forall (K : Api.Crypto) (users : list Api.User) (fresh : Z) (salt : string)
         (e p n : option string),
    List.NoDup (map Api.email users) ->
    List.NoDup (map Api.email (fst (@Api.register K users fresh salt e p n))).
Proof. intros K. exact (@ApiFacts.register_unique K). Qed.

(** On a table that has the account of [alice@example.org]: a request
    with the same email (answered 409) and a request with a new one
    (answered 201, the row appended). *)
Lemma register_keeps_emails_unique_witness :
  List.NoDup (map Api.email
                (fst (@Api.register Props.sample_crypto Props.sample_users 2 "s2"
                        (Some "alice@example.org"%string) (Some "other"%string) None)))
  /\ snd (@Api.register Props.sample_crypto Props.sample_users 2 "s2"
            (Some "alice@example.org"%string) (Some "other"%string) None)
     = Api.Message 409 "Email already in use"
  /\ List.NoDup (map Api.email
                   (fst (@Api.register Props.sample_crypto Props.sample_users 2 "s2"
                           (Some "bob@example.org"%string) (Some "hidden"%string) None)))
  /\ map Api.email
       (fst (@Api.register Props.sample_crypto Props.sample_users 2 "s2"
               (Some "bob@example.org"%string) (Some "hidden"%string) None))
     = ["alice@example.org"; "bob@example.org"]%string.
Proof.
  assert (Hnd : List.NoDup (map Api.email Props.sample_users))
    by (repeat constructor; simpl; intuition discriminate).
  split; [apply register_keeps_emails_unique; exact Hnd |].
  split; [reflexivity |].
  split; [apply register_keeps_emails_unique; exact Hnd | reflexivity].
Defined.

(* ===================================================================== *)
(** ** Habits *)
(* ===================================================================== *)

(** A habit that POST /habits created is in the list of the user
    who created it, and the list of every other user is what it was. *)
Theorem created_habit_is_listed_for_its_owner :
  forall (P : DateAPI) (habits : list Api.HabitRow) (user : Api.Claims) (fresh now : Z)
         (body : Api.HabitBody) (habits' : list Api.HabitRow) (h : Api.HabitRow),
    @Api.createHabit P habits user fresh now body = (habits', Api.Json 201 h) ->
    In h (Props.listed (Api.listHabits habits' user))
    /\ (forall other, Api.claim_id other <> Api.claim_id user ->
                      Api.listHabits habits' other = Api.listHabits habits other).
Proof. intros P. exact (@ApiFacts.createHabit_listed P). Qed.

Lemma created_habit_is_listed_for_its_owner_witness :
  In Props.sample_row (Props.listed (Api.listHabits [Props.sample_row] Props.alice))
  /\ (forall other, Api.claim_id other <> Api.claim_id Props.alice ->
                    Api.listHabits [Props.sample_row] other = Api.listHabits [] other).
Proof.
  apply (created_habit_is_listed_for_its_owner Platform.UTC [] Props.alice 1 0
           Props.sample_body).
  reflexivity.
Defined.

(** DELETE archives and does not remove, and it does not ask whose
    habit it is: for a habit that exists and any requesting user the
    reply is 200 with the habit archived, the table keeps its rows, the
    habit is in no list any more, and its analytics are answered as
    before. *)
Theorem deleted_habit_is_archived_for_everyone :
  forall (P : DateAPI) (habits : list Api.HabitRow) (user : Api.Claims) (habitId : Z)
         (h0 : Api.HabitRow),
    In h0 habits -> Api.id h0 = habitId ->
    (exists h, snd (Api.deleteHabit habits user habitId) = Api.Json 200 h
               /\ Api.id h = habitId /\ Api.archived h = true)
    /\ length (fst (Api.deleteHabit habits user habitId)) = length habits
    /\ (forall u x,
          In x (Props.listed (Api.listHabits (fst (Api.deleteHabit habits user habitId)) u)) ->
          Api.id x <> habitId)
    /\ (forall table u now,
          @Api.getAnalytics P (fst (Api.deleteHabit habits user habitId)) table u habitId now
          = @Api.getAnalytics P habits table u habitId now
          /\ @Api.getAnalytics P (fst (Api.deleteHabit habits user habitId)) table u
               habitId now <> Server.NotFound).
Proof. intros P. exact (@ApiFacts.deleteHabit_archives P). Qed.

Lemma deleted_habit_is_archived_for_everyone_witness :
  Props.listed (Api.listHabits [Props.sample_row] Props.alice) = [Props.sample_row]
  /\ forall x,
       In x (Props.listed
               (Api.listHabits (fst (Api.deleteHabit [Props.sample_row] Props.bob 1))
                  Props.alice)) ->
       Api.id x <> 1.
Proof.
  split; [reflexivity |]. intros x.
  apply (proj1 (proj2 (proj2 (deleted_habit_is_archived_for_everyone Platform.UTC
                                [Props.sample_row] Props.bob 1 Props.sample_row
                                ltac:(left; reflexivity) ltac:(reflexivity))))).
Defined.

(** What DELETE does, PATCH with [{ archived: false }] undoes: for
    a habit that was not archived, the habit table after the two requests
    is the table before them. *)
Theorem delete_then_patch_restores_the_habit :
  forall (P : DateAPI) (habits : list Api.HabitRow) (user user' : Api.Claims) (habitId : Z),
    (forall x, In x habits -> Api.id x = habitId -> Api.archived x = false) ->
    fst (@Api.updateHabit P (fst (Api.deleteHabit habits user habitId)) user' habitId
           Props.unarchive)
    = habits.
Proof. intros P. exact (@ApiFacts.delete_patch_restores P). Qed.

Lemma delete_then_patch_restores_the_habit_witness :
  fst (@Api.updateHabit Platform.UTC (fst (Api.deleteHabit [Props.sample_row] Props.alice 1))
         Props.bob 1 Props.unarchive)
  = [Props.sample_row].
Proof.
  apply delete_then_patch_restores_the_habit.
  intros x [<- | []] _. reflexivity.
Defined.

(* ===================================================================== *)
(** ** The state of the component *)
(* ===================================================================== *)

(** [handleLogout] resets the token, the user and the habits, and
    leaves the selected habit, the analytics and the logs: when the
    analytics panel is shown and the user logs out, the next user who
    logs in sees the same panel, with the numbers and charts of the
    habit the previous user had selected. *)
Theorem logout_keeps_the_analytics_panel :
  forall (P : DateAPI) (st : Ui.State) (data : Api.AuthResponse) (now : Z),
    Ui.panel_shown st = true ->
    Api.auth_token data <> EmptyString ->
    let st' := Ui.handleSubmit (Ui.handleLogout st) (Ui.Fetched data) in
    Ui.panel_shown (Ui.handleLogout st) = false
    /\ Ui.currentUser st' = Some (Api.auth_user data)
    /\ Ui.panel_shown st' = true
    /\ @Ui.panel P st' now = @Ui.panel P st now.
Proof.
  intros P st data now Hshown Htok st'.
  unfold Ui.panel_shown in Hshown.
  apply andb_prop in Hshown. destruct Hshown as [Hshown Hsel].
  repeat split.
  - unfold Ui.panel_shown, st'. cbn [Ui.handleSubmit Ui.handleLogout Ui.token Ui.currentUser
                                       Ui.selectedHabit].
    rewrite (ApiFacts.present_Some _ Htok), Hsel. reflexivity.
Qed.

Lemma logout_keeps_the_analytics_panel_witness :
  let data := {| Api.auth_user := {| Api.pub_id := 2; Api.pub_email := "bob@example.org";
                                     Api.pub_name := None |};
                 Api.auth_token := "bob@example.org" |} in
  let st' := Ui.handleSubmit (Ui.handleLogout Props.sample_state) (Ui.Fetched data) in
  Ui.panel_shown (Ui.handleLogout Props.sample_state) = false
  /\ Ui.currentUser st' = Some (Api.auth_user data)
  /\ Ui.panel_shown st' = true
  /\ @Ui.panel Platform.UTC st' Spec.sample_now
     = @Ui.panel Platform.UTC Props.sample_state Spec.sample_now.
Proof.
  intros data.
  apply (logout_keeps_the_analytics_panel Platform.UTC Props.sample_state data
           Spec.sample_now).
  - reflexivity.
  - discriminate.
Defined.

(** A request for analytics that fails leaves no stale chart:
    whatever the failure is (a response that is not ok, an exception),
    the habit is selected, the analytics are null and the logs empty, so
    the panel shows no number and every chart is empty, whatever was
    shown before. *)
Theorem failed_analytics_load_clears_the_charts :
  forall (P : DateAPI) (st : Ui.State) (habit : Ui.HabitItem)
         (res : Ui.fetched Server.response) (now : Z),
    (forall logs stats, res <> Ui.Fetched (Server.Json logs stats)) ->
    Ui.selectedHabit (@Ui.loadAnalytics P st habit res) = Some habit
    /\ @Ui.panel P (@Ui.loadAnalytics P st habit res) now
       = (Ok {| Engine.stats := None; Engine.weeklyBuckets := [];
                Engine.trailingWindow := []; Engine.calendar := [] |}, []).
Proof.
  intros P st habit res now Hfail.
  destruct res as [[| logs stats] | m | m]; try (split; reflexivity).
  exfalso. exact (Hfail logs stats eq_refl).
Qed.

Lemma failed_analytics_load_clears_the_charts_witness :
  @Ui.panel Platform.UTC
    (@Ui.loadAnalytics Platform.UTC Props.sample_state
       {| Ui.item_id := 2; Ui.item_title := "Run"; Ui.item_description := None;
          Ui.item_frequency := "daily"; Ui.item_startDate := "2024-02-01";
          Ui.item_category := None |}
       (Ui.NotOk None))
    Spec.sample_now
  = (Ok {| Engine.stats := None; Engine.weeklyBuckets := [];
           Engine.trailingWindow := []; Engine.calendar := [] |}, []).
Proof.
  apply (failed_analytics_load_clears_the_charts Platform.UTC).
  intros logs stats. discriminate.
Defined.
